(** * tidal-troi-ui backend: endpoint failover client and download state store

    A shallow embedding of [backend/tidal_client.py] and
    [backend/download_state.py], with the properties of the endpoint
    selector, the request executor, the status cache and the download
    state store stated and proved over it.

    Conventions of the embedding:
    - Python dicts used as maps are [gmap]s; dicts used as structs
      (an endpoint, a success record, a cache cell) are records.
    - [time.time()] is an explicit clock reading, an integer number of
      seconds, passed to the method that reads it.
    - JSON documents (configuration, response bodies, metadata, status
      documents) are values of the type [json].
    - The network and the file system are explicit inputs; the requests a
      call issues and the pauses it makes are returned as a trace. *)

From Stdlib Require Import ZArith String Ascii List Sorting.Sorted Sorting.Permutation Lia.
From stdpp Require Import gmap strings list fin_maps pretty.

Open Scope Z_scope.

(** ** Python values *)

#[warnings="-register-all"] Inductive json :=
  | JNull
  | JBool (b : bool)
  | JNum (z : Z)
  | JStr (s : string)
  | JArr (items : list json)
  | JObj (fields : list (string * json)).

(** [d.get(k)] on a dict that [json.load] built from the pairs [fields]:
    a later pair with the same key replaces an earlier one. *)
Definition dict_get (k : string) (fields : list (string * json)) : option json :=
  fold_left (fun acc kv => if String.eqb kv.1 k then Some kv.2 else acc) fields None.

(** Truth value of an [Optional[str]]: [None] and the empty string are falsy. *)
Definition truthy (o : option string) : bool :=
  match o with
  | Some s => negb (String.eqb s "")
  | None => false
  end.

(** [a or b] for an optional string [a] and a string [b]. *)
Definition or_else (o : option string) (d : string) : string :=
  match o with
  | Some s => if String.eqb s "" then d else s
  | None => d
  end.

(** ** Ordering of sort keys

    [sorted] is called with the key [(priority, name)]: tuples compare
    lexicographically, integers by value, strings by code point. *)

Definition key := (Z * string)%type.

Definition key_lt (a b : key) : bool :=
  (a.1 <? b.1) || ((a.1 =? b.1) && String.ltb a.2 b.2).

Definition key_le (a b : key) : Prop := key_lt b a = false.

(** [sorted(l, key=f)]: the result is the stable arrangement of [l] by
    ascending key, computed here by stable insertion and using only [<]
    on keys, as Python's sort does. *)
Section Sorted.
Context {A : Type} (f : A → key).

Fixpoint insert_by (x : A) (l : list A) : list A :=
  match l with
  | [] => [x]
  | y :: l' => if key_lt (f y) (f x) then y :: insert_by x l' else x :: y :: l'
  end.

Definition sorted (l : list A) : list A := foldr insert_by [] l.

(** [x] may come before [y]: the key of [y] is not below the key of [x]. *)
Definition le_by (x y : A) : Prop := key_le (f x) (f y).
End Sorted.

(** ** The API client ([tidal_client.py]) *)

Module tidal_client.

Record Endpoint := {
  name : string;
  url : string;
  priority : option Z   (* the key may be missing: [x.get('priority', 999)] *)
}.

Record SuccessRecord := {
  sr_name : string;
  sr_url : string;
  sr_timestamp : Z
}.

Record CachedStatus := {
  cs_status : json;
  cs_timestamp : Z
}.

Record TidalAPIClient := {
  endpoints : list Endpoint;
  success_history : gmap string SuccessRecord;
  download_status_cache : gmap Z CachedStatus
}.

Definition with_history (h : gmap string SuccessRecord) (self : TidalAPIClient)
  : TidalAPIClient :=
  {| endpoints := endpoints self;
     success_history := h;
     download_status_cache := download_status_cache self |}.

Definition with_cache (c : gmap Z CachedStatus) (self : TidalAPIClient)
  : TidalAPIClient :=
  {| endpoints := endpoints self;
     success_history := success_history self;
     download_status_cache := c |}.

(** *** Endpoint dicts as objects

    [_sort_endpoints_by_priority] copies a dict and assigns to a key of the
    copy, so the endpoint dicts are modelled as objects in a store and the
    lists hold references to them.  A reference is an index into the
    store; allocation appends. *)

Abbreviation ref := nat.
Abbreviation objects := (list Endpoint).

Definition set_priority (p : Z) (d : Endpoint) : Endpoint :=
  {| name := name d; url := url d; priority := Some p |}.

(** One iteration of
    [for ep in endpoints: if ep['name'] == last_success['name']: ep = ep.copy(); ep['priority'] = 0].
    The loop variable [ep] is rebound to the fresh copy and the assignment
    goes to that copy; the list [endpoints] is not assigned to. *)
Definition promote_step (last_name : string) (h : objects) (ep : ref) : objects :=
  match h !! ep with
  | Some d =>
      if String.eqb (name d) last_name then
        let ep' : ref := length h in          (* ep = ep.copy() *)
        let h' := h ++ [d] in
        alter (set_priority 0) ep' h'         (* ep['priority'] = 0 *)
      else h
  | None => h
  end.

Definition promote_loop (last_name : string) (eps : list ref) (h : objects) : objects :=
  fold_left (promote_step last_name) eps h.

Definition sort_key (x : Endpoint) : key :=
  (default 999 (priority x), name x).

Definition _sort_endpoints_by_priority (self : TidalAPIClient) (operation : option string)
  : list Endpoint :=
  let h0 : objects := endpoints self in
  let eps : list ref := seq 0 (length h0) in  (* endpoints = self.endpoints.copy() *)
  let h :=
    match operation with
    | Some op =>
        if truthy operation then
          match success_history self !! op with
          | Some last_success => promote_loop (sr_name last_success) eps h0
          | None => h0
          end
        else h0
    | None => h0
    end in
  (* the keys are read through the references; the caller gets the dicts
     the sorted references point to *)
  sorted sort_key (omap (fun r => h !! r) eps).

Definition _record_success (endpoint : Endpoint) (operation : string) (now : Z)
    (self : TidalAPIClient) : TidalAPIClient :=
  with_history
    (<[operation := {| sr_name := name endpoint;
                       sr_url := url endpoint;
                       sr_timestamp := now |}]> (success_history self))
    self.

(** *** The network

    [self.session.get(url, params=params, timeout=10)] either raises or
    returns a response with a status code; [response.json()] either raises
    or returns the parsed body.  The [try] block of [_make_request] catches
    [requests.exceptions.RequestException] and nothing else. *)

Inductive exn := RequestException | OtherException.

Inductive get_result :=
  | Raises (e : exn)
  | Response (status_code : Z) (body : exn + json).

Definition network := string → option json → get_result.

Inductive event :=
  | EvGet (url : string) (params : option json)
  | EvSleep (secs : Z).

Inductive outcome :=
  | Return (r : option json)
  | Raise (e : exn).

Record Result := {
  res_outcome : outcome;
  res_self : TidalAPIClient;
  res_trace : list event
}.

Definition after (evs : list event) (r : Result) : Result :=
  {| res_outcome := res_outcome r;
     res_self := res_self r;
     res_trace := evs ++ res_trace r |}.

Definition finish (o : outcome) (self : TidalAPIClient) : Result :=
  {| res_outcome := o; res_self := self; res_trace := [] |}.

(** The loop of [_make_request] over the sorted endpoints.  [now] is the
    clock; [time.sleep(2)] advances it, the time a request takes is not
    modelled. *)
Fixpoint request_loop (net : network) (path : string) (params : option json)
    (operation : option string) (sorted_endpoints : list Endpoint)
    (now : Z) (self : TidalAPIClient) : Result :=
  match sorted_endpoints with
  | [] => finish (Return None) self
  | endpoint :: rest =>
      let url := (url endpoint ++ path)%string in
      let continue now self := request_loop net path params operation rest now self in
      after [EvGet url params]
        match net url params with
        | Raises RequestException => continue now self
        | Raises e => finish (Raise e) self
        | Response status_code body =>
            if status_code =? 429 then
              after [EvSleep 2] (continue (now + 2) self)
            else if (status_code =? 500) || (status_code =? 404) then
              continue now self
            else if status_code =? 200 then
              let self := _record_success endpoint (or_else operation path) now self in
              match body with
              | inr doc => finish (Return (Some doc)) self
              | inl RequestException => continue now self
              | inl e => finish (Raise e) self
              end
            else continue now self
        end
  end.

Definition _make_request (net : network) (path : string) (params : option json)
    (operation : option string) (now : Z) (self : TidalAPIClient) : Result :=
  let sorted_endpoints := _sort_endpoints_by_priority self operation in
  request_loop net path params operation sorted_endpoints now self.

(** *** The query methods *)

Definition search_tracks (net : network) (query : string) (now : Z)
    (self : TidalAPIClient) : Result :=
  _make_request net "/search/" (Some (JObj [("s", JStr query)]))
    (Some "search_tracks") now self.

Definition search_albums (net : network) (query : string) (now : Z)
    (self : TidalAPIClient) : Result :=
  _make_request net "/search/" (Some (JObj [("al", JStr query)]))
    (Some "search_albums") now self.

Definition search_artists (net : network) (query : string) (now : Z)
    (self : TidalAPIClient) : Result :=
  _make_request net "/search/" (Some (JObj [("a", JStr query)]))
    (Some "search_artists") now self.

(** [quality] defaults to ["LOSSLESS"] in the source. *)
Definition get_track (net : network) (track_id : Z) (quality : string) (now : Z)
    (self : TidalAPIClient) : Result :=
  _make_request net "/track/"
    (Some (JObj [("id", JNum track_id); ("quality", JStr quality)]))
    (Some "get_track") now self.

Definition get_album (net : network) (album_id : Z) (now : Z)
    (self : TidalAPIClient) : Result :=
  _make_request net "/album/" (Some (JObj [("id", JNum album_id)]))
    (Some "get_album") now self.

Definition get_album_tracks (net : network) (album_id : Z) (now : Z)
    (self : TidalAPIClient) : Result :=
  _make_request net "/album/tracks" (Some (JObj [("id", JNum album_id)]))
    (Some "get_album_tracks") now self.

Definition get_artist (net : network) (artist_id : Z) (now : Z)
    (self : TidalAPIClient) : Result :=
  _make_request net "/artist/" (Some (JObj [("f", JNum artist_id)]))
    (Some "get_artist") now self.

(** *** The status cache *)

Definition get_download_status (track_id : Z) (now : Z) (self : TidalAPIClient)
  : option json :=
  match download_status_cache self !! track_id with
  | Some cached =>
      if now - cs_timestamp cached <? 300 then Some (cs_status cached) else None
  | None => None
  end.

Definition set_download_status (track_id : Z) (status : json) (now : Z)
    (self : TidalAPIClient) : TidalAPIClient :=
  with_cache
    (<[track_id := {| cs_status := status; cs_timestamp := now |}]>
       (download_status_cache self))
    self.

Definition clear_download_status (track_id : Z) (self : TidalAPIClient)
  : TidalAPIClient :=
  with_cache (delete track_id (download_status_cache self)) self.

Definition cleanup_old_status_cache (now : Z) (self : TidalAPIClient)
  : TidalAPIClient :=
  let expired_keys :=
    (filter (fun kd => now - cs_timestamp kd.2 > 300)
            (map_to_list (download_status_cache self))).*1 in
  with_cache (foldr delete (download_status_cache self) expired_keys) self.

(** *** Loading the endpoints

    What [_load_endpoints] finds at [self.endpoints_file]: no file, a file
    that [open] or [json.load] raises on, or a file holding a JSON value. *)

Inductive file_content :=
  | Missing
  | Unreadable
  | Parsed (data : json).

Definition mirror (n u : string) (p : Z) : Endpoint :=
  {| name := n; url := u; priority := Some p |}.

Definition default_endpoints : list Endpoint :=
  [ mirror "kraken" "https://kraken.squid.wtf" 1;
    mirror "triton" "https://triton.squid.wtf" 1;
    mirror "zeus" "https://zeus.squid.wtf" 1;
    mirror "aether" "https://aether.squid.wtf" 1;
    mirror "phoenix" "https://phoenix.squid.wtf" 1;
    mirror "shiva" "https://shiva.squid.wtf" 1;
    mirror "chaos" "https://chaos.squid.wtf" 1;
    mirror "hund" "https://hund.qqdl.site" 2;
    mirror "katze" "https://katze.qqdl.site" 2;
    mirror "maus" "https://maus.qqdl.site" 2;
    mirror "vogel" "https://vogel.qqdl.site" 2;
    mirror "wolf" "https://wolf.qqdl.site" 2 ].

(** An endpoint dict as the JSON object it is written as. *)
Definition endpoint_to_json (e : Endpoint) : json :=
  JObj ([("name", JStr (name e)); ("url", JStr (url e))]
        ++ match priority e with
           | Some p => [("priority", JNum p)]
           | None => []
           end).

Definition endpoints_to_json (l : list Endpoint) : json :=
  JArr (endpoint_to_json <$> l).

(** The value is returned as found: [data.get('endpoints', default_endpoints)]
    does not look at what is stored under the key.  [data.get] on a value
    that is not a dict raises [AttributeError], which [except Exception]
    catches. *)
Definition _load_endpoints (endpoints_file : file_content) : json :=
  match endpoints_file with
  | Parsed (JObj data) =>
      default (endpoints_to_json default_endpoints) (dict_get "endpoints" data)
  | Parsed _ => endpoints_to_json default_endpoints
  | Unreadable => endpoints_to_json default_endpoints
  | Missing => endpoints_to_json default_endpoints
  end.

(** Reading a JSON value back as a list of endpoint dicts: a list of
    objects with a string [name], a string [url] and, when present, an
    integer [priority]. *)
Definition endpoint_of_json (j : json) : option Endpoint :=
  match j with
  | JObj fields =>
      match dict_get "name" fields, dict_get "url" fields with
      | Some (JStr n), Some (JStr u) =>
          match dict_get "priority" fields with
          | None => Some {| name := n; url := u; priority := None |}
          | Some (JNum p) => Some {| name := n; url := u; priority := Some p |}
          | Some _ => None
          end
      | _, _ => None
      end
  | _ => None
  end.

Definition endpoints_of_json (j : json) : option (list Endpoint) :=
  match j with
  | JArr items => mapM endpoint_of_json items
  | _ => None
  end.

(** A configuration document as the interface describes it: an object
    with an [endpoints] list of endpoint objects. *)
Definition well_formed_config (endpoints_file : file_content) : bool :=
  match endpoints_file with
  | Parsed (JObj data) =>
      match dict_get "endpoints" data with
      | Some j => bool_decide (is_Some (endpoints_of_json j))
      | None => false
      end
  | _ => false
  end.

(** [TidalAPIClient(endpoints_file)], for a loaded value that is a list
    of endpoint dicts. *)
Definition __init__ (endpoints_file : file_content) : option TidalAPIClient :=
  eps ← endpoints_of_json (_load_endpoints endpoints_file);
  Some {| endpoints := eps; success_history := ∅; download_status_cache := ∅ |}.

(** *** Reading a trace and classifying what the network answers *)

(** The GET requests of a trace, in the order they were issued. *)
Definition requests (tr : list event) : list (string * option json) :=
  omap (fun e => match e with
                 | EvGet u p => Some (u, p)
                 | EvSleep _ => None
                 end) tr.

(** The seconds slept in a trace. *)
Definition slept (tr : list event) : Z :=
  foldr (fun e acc => match e with
                      | EvSleep s => s + acc
                      | EvGet _ _ => acc
                      end) 0 tr.

(** The request an endpoint receives. *)
Definition request_to (path : string) (params : option json) (e : Endpoint)
  : string * option json :=
  ((url e ++ path)%string, params).

(** A failure as the interface lists them: a transport-level error, or
    one of the statuses 429, 500 and 404. *)
Definition is_failure (r : get_result) : bool :=
  match r with
  | Raises RequestException => true
  | Raises OtherException => false
  | Response c _ => (c =? 429) || (c =? 500) || (c =? 404)
  end.

(** An answer that is not a 200: a transport-level error or a response
    with any other status. *)
Definition not_200 (r : get_result) : bool :=
  match r with
  | Raises RequestException => true
  | Raises OtherException => false
  | Response c _ => negb (c =? 200)
  end.

(** The pause that follows an answer: two seconds after a 429. *)
Definition pause_after (r : get_result) : list event :=
  match r with
  | Response c _ => if c =? 429 then [EvSleep 2] else []
  | Raises _ => []
  end.

End tidal_client.

(** ** The download state store ([download_state.py]) *)

Module download_state.

(** An entry is a dict with string keys; the three mappings are keyed by
    [str(track_id)]. *)
Abbreviation entry := (gmap string json).

Record State := {
  active : gmap string entry;
  completed : gmap string entry;
  failed : gmap string entry
}.

(** What is found at [self.state_file]. *)
Inductive file :=
  | NoFile
  | Corrupt
  | Saved (doc : State).

(** [state] is [self.state]; [state_file] is the content of the file
    [self.state_file] names. *)
Record DownloadStateManager := {
  state : State;
  state_file : file
}.

Definition empty_state : State :=
  {| active := ∅; completed := ∅; failed := ∅ |}.

Definition with_active (m : gmap string entry) (st : State) : State :=
  {| active := m; completed := completed st; failed := failed st |}.
Definition with_completed (m : gmap string entry) (st : State) : State :=
  {| active := active st; completed := m; failed := failed st |}.
Definition with_failed (m : gmap string entry) (st : State) : State :=
  {| active := active st; completed := completed st; failed := m |}.
Definition with_state (st : State) (self : DownloadStateManager) : DownloadStateManager :=
  {| state := st; state_file := state_file self |}.

(** [str(track_id)] *)
Definition str (track_id : Z) : string := pretty track_id.

(** [metadata or {}] *)
Definition or_empty (metadata : option (list (string * json))) : json :=
  JObj (default [] metadata).

Definition _load_state (f : file) : State :=
  match f with
  | Saved doc => doc
  | Corrupt => empty_state
  | NoFile => empty_state
  end.

(** The write is taken to succeed; [_save_state] itself swallows a failure. *)
Definition _save_state (self : DownloadStateManager) : DownloadStateManager :=
  {| state := state self; state_file := Saved (state self) |}.

(** [data.get("timestamp", 0)] as a number; [None] when the subtraction
    [current_time - ...] raises [TypeError]. *)
Definition timestamp_of (data : entry) : option Z :=
  match data !! "timestamp" with
  | None => Some 0
  | Some (JNum t) => Some t
  | Some (JBool b) => Some (if b then 1 else 0)
  | Some _ => None
  end.

Definition max_age : Z := 3600.

(** The list comprehension of [_cleanup_old_entries] over one mapping. *)
Definition expired_keys (current_time : Z) (m : gmap string entry)
  : option (list string) :=
  foldr (fun kd acc =>
           ts ← timestamp_of kd.2;
           ks ← acc;
           Some (if bool_decide (current_time - ts > max_age) then kd.1 :: ks else ks))
        (Some []) (map_to_list m).

Definition delete_all (ks : list string) (m : gmap string entry) : gmap string entry :=
  foldr delete m ks.

(** The loop runs over ["completed"] and then ["failed"]; the variable
    [expired_keys] read after the loop holds the list of the last
    category. *)
Definition _cleanup_old_entries (current_time : Z) (self : DownloadStateManager)
  : option DownloadStateManager :=
  let st := state self in
  ks ← expired_keys current_time (completed st);
  let st := with_completed (delete_all ks (completed st)) st in
  ks ← expired_keys current_time (failed st);
  let st := with_failed (delete_all ks (failed st)) st in
  let self := with_state st self in
  Some (match ks with
        | [] => self
        | _ :: _ => _save_state self
        end).

Definition __init__ (state_file : file) (current_time : Z)
  : option DownloadStateManager :=
  _cleanup_old_entries current_time
    {| state := _load_state state_file; state_file := state_file |}.

(** [{"status": tag, **e}]: the keys of [e] come last and win. *)
Definition tagged (tag : string) (e : entry) : entry :=
  e ∪ {[ "status" := JStr tag ]}.

Definition get_download_state (track_id : Z) (self : DownloadStateManager)
  : option entry :=
  let track_id_str := str track_id in
  match active (state self) !! track_id_str with
  | Some e => Some (tagged "downloading" e)
  | None =>
      match completed (state self) !! track_id_str with
      | Some e => Some (tagged "completed" e)
      | None =>
          match failed (state self) !! track_id_str with
          | Some e => Some (tagged "failed" e)
          | None => None
          end
      end
  end.

Definition set_downloading (track_id : Z) (progress : Z)
    (metadata : option (list (string * json))) (now : Z)
    (self : DownloadStateManager) : DownloadStateManager :=
  let track_id_str := str track_id in
  let e : entry :=
    {[ "progress" := JNum progress;
       "timestamp" := JNum now;
       "metadata" := or_empty metadata ]} in
  _save_state
    (with_state (with_active (<[track_id_str := e]> (active (state self))) (state self)) self).

Definition update_progress (track_id : Z) (progress : Z) (now : Z)
    (self : DownloadStateManager) : DownloadStateManager :=
  let track_id_str := str track_id in
  match active (state self) !! track_id_str with
  | Some e =>
      let e := <["progress" := JNum progress]> e in
      let e := <["timestamp" := JNum now]> e in
      _save_state
        (with_state (with_active (<[track_id_str := e]> (active (state self))) (state self)) self)
  | None => self
  end.

Definition set_completed (track_id : Z) (filename : string)
    (metadata : option (list (string * json))) (now : Z)
    (self : DownloadStateManager) : DownloadStateManager :=
  let track_id_str := str track_id in
  let st := state self in
  let st := with_active (delete track_id_str (active st)) st in
  let e : entry :=
    {[ "filename" := JStr filename;
       "timestamp" := JNum now;
       "metadata" := or_empty metadata ]} in
  let st := with_completed (<[track_id_str := e]> (completed st)) st in
  _save_state (with_state st self).

Definition set_failed (track_id : Z) (error : string)
    (metadata : option (list (string * json))) (now : Z)
    (self : DownloadStateManager) : DownloadStateManager :=
  let track_id_str := str track_id in
  let st := state self in
  let st := with_active (delete track_id_str (active st)) st in
  let e : entry :=
    {[ "error" := JStr error;
       "timestamp" := JNum now;
       "metadata" := or_empty metadata ]} in
  let st := with_failed (<[track_id_str := e]> (failed st)) st in
  _save_state (with_state st self).

Definition clear_download (track_id : Z) (self : DownloadStateManager)
  : DownloadStateManager :=
  let track_id_str := str track_id in
  let st := state self in
  let st := with_active (delete track_id_str (active st)) st in
  let st := with_completed (delete track_id_str (completed st)) st in
  let st := with_failed (delete track_id_str (failed st)) st in
  _save_state (with_state st self).

Definition get_all_active (self : DownloadStateManager) := active (state self).
Definition get_all_completed (self : DownloadStateManager) := completed (state self).
Definition get_all_failed (self : DownloadStateManager) := failed (state self).

(** *** Sequences of store operations *)

Inductive op :=
  | SetDownloading (track_id progress : Z) (metadata : option (list (string * json)))
  | UpdateProgress (track_id progress : Z)
  | SetCompleted (track_id : Z) (filename : string) (metadata : option (list (string * json)))
  | SetFailed (track_id : Z) (error : string) (metadata : option (list (string * json)))
  | ClearDownload (track_id : Z).

(** One call, made when the clock reads [now]. *)
Definition apply_op (now : Z) (o : op) (self : DownloadStateManager)
  : DownloadStateManager :=
  match o with
  | SetDownloading i p m => set_downloading i p m now self
  | UpdateProgress i p => update_progress i p now self
  | SetCompleted i f m => set_completed i f m now self
  | SetFailed i e m => set_failed i e m now self
  | ClearDownload i => clear_download i self
  end.

Definition run (calls : list (Z * op)) (self : DownloadStateManager)
  : DownloadStateManager :=
  fold_left (fun s c => apply_op c.1 c.2 s) calls self.

(** The store a process starts with when there is no state file. *)
Definition empty_store : DownloadStateManager :=
  {| state := empty_state; state_file := NoFile |}.

(** No key is in two of the three mappings. *)
Definition one_state_per_item (st : State) : Prop :=
  ∀ k : string,
    (is_Some (active st !! k) → completed st !! k = None ∧ failed st !! k = None)
    ∧ (is_Some (completed st !! k) → failed st !! k = None).

(** The calls that keep the mappings apart: an item is not made active
    while it has a completed or failed entry, and is not given a completed
    (failed) entry while it has a failed (completed) one. *)
Definition keeps_apart (st : State) (o : op) : Prop :=
  match o with
  | SetDownloading i _ _ => completed st !! str i = None ∧ failed st !! str i = None
  | SetCompleted i _ _ => failed st !! str i = None
  | SetFailed i _ _ => completed st !! str i = None
  | UpdateProgress _ _ => True
  | ClearDownload _ => True
  end.

Fixpoint all_keep_apart (calls : list (Z * op)) (self : DownloadStateManager) : Prop :=
  match calls with
  | [] => True
  | c :: rest =>
      keeps_apart (state self) c.2 ∧ all_keep_apart rest (apply_op c.1 c.2 self)
  end.

(** *** Predicates on stores *)

(** The file holds the state: loading it gives [self.state] back. *)
Definition persisted (self : DownloadStateManager) : Prop :=
  _load_state (state_file self) = state self.



(** Every entry of the three mappings satisfies [P]. *)
Definition all_entries (P : entry → Prop) (st : State) : Prop :=
  ∀ k d, (active st !! k = Some d ∨ completed st !! k = Some d ∨ failed st !! k = Some d) →
         P d.

(** An entry as the setters write it: a number under ["timestamp"] and no
    key ["status"]. *)
Definition well_shaped (d : entry) : Prop :=
  (∃ t, d !! "timestamp" = Some (JNum t)) ∧ d !! "status" = None.

(** The tag of the first mapping, in the order active, completed, failed,
    that holds the key. *)
Definition tag_of (k : string) (st : State) : string :=
  if decide (is_Some (active st !! k)) then "downloading"
  else if decide (is_Some (completed st !! k)) then "completed"
  else "failed".

(** The item a call is about. *)
Definition track_of (o : op) : Z :=
  match o with
  | SetDownloading i _ _ => i
  | UpdateProgress i _ => i
  | SetCompleted i _ _ => i
  | SetFailed i _ _ => i
  | ClearDownload i => i
  end.

End download_state.

(** ** Concrete scenarios *)

Module scenarios.
Import tidal_client.

Definition kraken : Endpoint := mirror "kraken" "https://kraken.squid.wtf" 1.
Definition triton : Endpoint := mirror "triton" "https://triton.squid.wtf" 1.
Definition wolf : Endpoint := mirror "wolf" "https://wolf.qqdl.site" 2.

(** A client with two mirrors of equal priority and no history. *)
Definition two_mirrors : TidalAPIClient :=
  {| endpoints := [kraken; triton];
     success_history := ∅;
     download_status_cache := ∅ |}.

(** The client built when there is no configuration file. *)
Definition default_client : TidalAPIClient :=
  {| endpoints := default_endpoints;
     success_history := ∅;
     download_status_cache := ∅ |}.

(** A search on the built-in list: aether times out, chaos is rate
    limited, kraken answers; every other mirror would answer too. *)
Definition search_path : string := "/search/".
Definition search_params : option json := Some (JObj [("s", JStr "blue")]).
Definition found : json := JObj [("items", JArr [JStr "blue train"])].

Definition flaky_net : network := fun url _ =>
  if String.eqb url "https://aether.squid.wtf/search/" then Raises RequestException
  else if String.eqb url "https://chaos.squid.wtf/search/" then Response 429 (inr JNull)
  else if String.eqb url "https://kraken.squid.wtf/search/" then Response 200 (inr found)
  else Response 200 (inr JNull).

(** Every mirror is down: kraken is rate limited, triton times out and
    the others answer 404. *)
Definition down_net : network := fun url _ =>
  if String.eqb url "https://kraken.squid.wtf/search/" then Response 429 (inr JNull)
  else if String.eqb url "https://triton.squid.wtf/search/" then Raises RequestException
  else Response 404 (inr JNull).

(** Every mirror refuses with a 403. *)
Definition forbidden_net : network := fun _ _ => Response 403 (inr JNull).

(** A configuration that parses but stores a number under [endpoints]. *)
Definition bad_config : file_content := Parsed (JObj [("endpoints", JNum 42)]).

(** A configuration with one mirror. *)
Definition one_mirror_config : file_content :=
  Parsed (JObj [("endpoints", endpoints_to_json [kraken])]).

Definition ready : json := JObj [("state", JStr "ready")].

(** Calls that complete item 7 and then start it again. *)
Definition restart_calls : list (Z * download_state.op) :=
  [ (10, download_state.SetCompleted 7 "a.flac" None);
    (20, download_state.SetDownloading 7 0 None) ].

(** Calls that take item 7 through a download, clear it and fail it on a
    second attempt, with item 8 completed in between. *)
Definition orderly_calls : list (Z * download_state.op) :=
  [ (10, download_state.SetDownloading 7 0 None);
    (11, download_state.UpdateProgress 7 50);
    (12, download_state.SetDownloading 8 0 None);
    (13, download_state.SetCompleted 7 "a.flac" None);
    (14, download_state.SetCompleted 8 "b.flac" None);
    (15, download_state.ClearDownload 7);
    (16, download_state.SetDownloading 7 0 None);
    (17, download_state.SetFailed 7 "timeout" None) ].

(** A state file with one completed entry written at time 0 and no
    failed entry. *)
Definition stale_completed : download_state.file :=
  download_state.Saved
    {| download_state.active := ∅;
       download_state.completed :=
         {[ "7"%string := {[ "filename" := JStr "a.flac";
                             "timestamp" := JNum 0;
                             "metadata" := JObj [] ]} ]};
       download_state.failed := ∅ |}.

(** The same entry, under [failed]. *)
Definition stale_failed : download_state.file :=
  download_state.Saved
    {| download_state.active := ∅;
       download_state.completed := ∅;
       download_state.failed :=
         {[ "7"%string := {[ "error" := JStr "timeout";
                             "timestamp" := JNum 0;
                             "metadata" := JObj [] ]} ]} |}.

(** The first mirror tried is rate limited, the second answers. *)
Definition limited_net : network := fun url _ =>
  if String.eqb url "https://kraken.squid.wtf/search/" then Response 429 (inr JNull)
  else Response 200 (inr found).

(** The first mirror tried fails outside the transport layer. *)
Definition broken_net : network := fun url _ =>
  if String.eqb url "https://kraken.squid.wtf/search/" then Raises OtherException
  else Response 200 (inr found).

(** The first mirror tried answers 200 with a body that is not JSON, the
    failure being a [RequestException]; the second is down. *)
Definition garbled_net : network := fun url _ =>
  if String.eqb url "https://kraken.squid.wtf/search/" then Response 200 (inl RequestException)
  else Response 500 (inr JNull).

(** A state file whose active entry carries a key ["status"] of its own. *)
Definition tagged_file : download_state.file :=
  download_state.Saved
    {| download_state.active :=
         {[ "7"%string := {[ "progress" := JNum 10;
                             "timestamp" := JNum 0;
                             "status" := JStr "paused" ]} ]};
       download_state.completed := ∅;
       download_state.failed := ∅ |}.


(** The first mirror tried answers 200 with a body that is not JSON, the
    failure being a [RequestException]; the second answers 200 with a
    document. *)
Definition garbled_then_ok_net : network := fun url _ =>
  if String.eqb url "https://kraken.squid.wtf/search/" then Response 200 (inl RequestException)
  else Response 200 (inr found).

(** A state file whose failed entry carries a key ["status"] of its own. *)
Definition tagged_failed_file : download_state.file :=
  download_state.Saved
    {| download_state.active := ∅;
       download_state.completed := ∅;
       download_state.failed :=
         {[ "7"%string := {[ "error" := JStr "timeout";
                             "timestamp" := JNum 0;
                             "status" := JStr "retrying" ]} ]} |}.

End scenarios.

(** * Properties *)

Import tidal_client.

(** ** The order on sort keys *)

Lemma string_ltb_asym (a b : string) : String.ltb a b = true → String.ltb b a = false.
Proof.
  unfold String.ltb. rewrite (String.compare_antisym b a).
  destruct (String.compare a b); simpl; congruence.
Qed.

Lemma string_ltb_total (a b : string) :
  String.ltb a b = false → String.ltb b a = false → a = b.
Proof.
  unfold String.ltb. rewrite (String.compare_antisym b a).
  destruct (String.compare a b) eqn:E; simpl; try congruence.
  intros _ _. by apply String.compare_eq_iff.
Qed.

Lemma key_lt_asym (a b : key) : key_lt a b = true → key_lt b a = false.
Proof.
  unfold key_lt. destruct a as [p n], b as [q m]; simpl.
  rewrite !orb_true_iff, !andb_true_iff, orb_false_iff, andb_false_iff.
  rewrite !Z.ltb_lt, !Z.eqb_eq, Z.ltb_ge, Z.eqb_neq.
  intros [Hlt | [-> Hn]].
  - split; [lia | left; lia].
  - split; [lia | right; by apply string_ltb_asym].
Qed.

Lemma key_le_total (a b : key) : key_le a b ∨ key_le b a.
Proof.
  unfold key_le. destruct (key_lt b a) eqn:E; [right | by left].
  by apply key_lt_asym.
Qed.

Lemma key_le_antisym (a b : key) : key_le a b → key_le b a → a = b.
Proof.
  unfold key_le, key_lt. destruct a as [p n], b as [q m]; simpl.
  rewrite !orb_false_iff, !andb_false_iff, !Z.ltb_ge, !Z.eqb_neq.
  intros [H1 H2] [H3 H4].
  assert (p = q) as -> by lia.
  destruct H2 as [? | H2]; [done |]. destruct H4 as [? | H4]; [done |].
  f_equal. by apply string_ltb_total.
Qed.

(** ** [sorted] *)

Section SortedFacts.
Context {A : Type} (f : A → key).

Lemma insert_by_perm (x : A) (l : list A) : Permutation (insert_by f x l) (x :: l).
Proof.
  induction l as [| y l IH]; simpl; [done |].
  destruct (key_lt (f y) (f x)); [| done].
  rewrite IH. apply perm_swap.
Qed.

Lemma sorted_perm (l : list A) : Permutation (sorted f l) l.
Proof.
  induction l as [| x l IH]; simpl; [done |].
  rewrite insert_by_perm. by constructor.
Qed.

Lemma insert_by_HdRel (a x : A) (l : list A) :
  le_by f a x → HdRel (le_by f) a l → HdRel (le_by f) a (insert_by f x l).
Proof.
  intros Hax Hl. destruct l as [| y l]; simpl; [by constructor |].
  destruct (key_lt (f y) (f x)); constructor; [| done].
  by inversion Hl.
Qed.

Lemma insert_by_Sorted (x : A) (l : list A) :
  Sorted (le_by f) l → Sorted (le_by f) (insert_by f x l).
Proof.
  induction 1 as [| y l Hs IH Hhd]; simpl; [by repeat constructor |].
  destruct (key_lt (f y) (f x)) eqn:E.
  - constructor; [done |].
    apply insert_by_HdRel; [| done].
    unfold le_by, key_le. by apply key_lt_asym.
  - constructor; [by constructor |]. by constructor.
Qed.

Lemma sorted_Sorted (l : list A) : Sorted (le_by f) (sorted f l).
Proof.
  induction l as [| x l IH]; simpl; [constructor |].
  by apply insert_by_Sorted.
Qed.
End SortedFacts.

(** ** Transitivity of the key order *)

Lemma ascii_compare_lt_trans (a b c : ascii) :
  Ascii.compare a b = Lt → Ascii.compare b c = Lt → Ascii.compare a c = Lt.
Proof. unfold Ascii.compare. rewrite !N.compare_lt_iff. lia. Qed.

Lemma string_compare_lt_trans (a b c : string) :
  String.compare a b = Lt → String.compare b c = Lt → String.compare a c = Lt.
Proof.
  revert b c. induction a as [| x a IH]; intros [| y b] [| z c]; simpl; try congruence.
  destruct (Ascii.compare x y) eqn:Exy; try congruence.
  - apply Ascii.compare_eq_iff in Exy as ->.
    destruct (Ascii.compare y z); try congruence. apply IH.
  - intros _. destruct (Ascii.compare y z) eqn:Eyz; try congruence.
    + apply Ascii.compare_eq_iff in Eyz as <-. by rewrite Exy.
    + by rewrite (ascii_compare_lt_trans _ _ _ Exy Eyz).
Qed.

Lemma string_ltb_trans (a b c : string) :
  String.ltb a b = true → String.ltb b c = true → String.ltb a c = true.
Proof.
  unfold String.ltb. intros Hab Hbc.
  destruct (String.compare a b) eqn:E1; try congruence.
  destruct (String.compare b c) eqn:E2; try congruence.
  by rewrite (string_compare_lt_trans _ _ _ E1 E2).
Qed.

Lemma key_lt_trans (a b c : key) :
  key_lt a b = true → key_lt b c = true → key_lt a c = true.
Proof.
  unfold key_lt. destruct a as [p n], b as [q m], c as [r o]; simpl.
  rewrite !orb_true_iff, !andb_true_iff, !Z.ltb_lt, !Z.eqb_eq.
  intros [H1 | [-> H1]] [H2 | [-> H2]]; try (left; lia).
  right. split; [done |]. by eapply string_ltb_trans.
Qed.

Lemma key_le_trans (a b c : key) : key_le a b → key_le b c → key_le a c.
Proof.
  unfold key_le. intros Hab Hbc.
  destruct (key_lt c a) eqn:Hca; [| done].
  destruct (key_lt b c) eqn:Hbc'.
  - by rewrite (key_lt_trans _ _ _ Hbc' Hca) in Hab.
  - assert (b = c) as -> by (by apply key_le_antisym). congruence.
Qed.

Lemma sorted_StronglySorted {A : Type} (f : A → key) (l : list A) :
  StronglySorted (le_by f) (sorted f l).
Proof.
  apply Sorted_StronglySorted; [| apply sorted_Sorted].
  intros x y z. unfold le_by. apply key_le_trans.
Qed.

(** ** The endpoint selector *)

Lemma promote_step_extends (last_name : string) (h : objects) (ep : ref) :
  ∃ extra, promote_step last_name h ep = h ++ extra.
Proof.
  unfold promote_step. destruct (h !! ep) as [d |]; [| by exists []; rewrite app_nil_r].
  destruct (String.eqb (name d) last_name); [| by exists []; rewrite app_nil_r].
  exists [set_priority 0 d].
  replace (length h) with (length h + 0)%nat by lia.
  by rewrite alter_app_r.
Qed.

Lemma promote_loop_extends (last_name : string) (eps : list ref) (h : objects) :
  ∃ extra, promote_loop last_name eps h = h ++ extra.
Proof.
  revert h. induction eps as [| ep eps IH]; intros h; simpl.
  - exists []. by rewrite app_nil_r.
  - destruct (promote_step_extends last_name h ep) as [e1 ->].
    destruct (IH (h ++ e1)) as [e2 ->].
    exists (e1 ++ e2). by rewrite app_assoc.
Qed.

(** Reading the first [length h] references of a store gives back [h],
    whatever was allocated after them. *)
Lemma read_refs (h extra : objects) :
  omap (fun r : ref => (h ++ extra) !! r) (seq 0 (length h)) = h.
Proof.
  revert extra. induction h as [| x h IH] using rev_ind; intros extra; [done |].
  rewrite length_app, Nat.add_comm. simpl length.
  rewrite seq_S, omap_app. simpl.
  rewrite <- app_assoc. rewrite IH. simpl.
  rewrite (list_lookup_middle h extra x (length h) eq_refl). done.
Qed.

(** The success history has no effect on the order: the result is the
    endpoint list arranged by static priority and name. *)
Lemma sort_endpoints_static (self : TidalAPIClient) (operation : option string) :
  _sort_endpoints_by_priority self operation = sorted sort_key (endpoints self).
Proof.
  unfold _sort_endpoints_by_priority. f_equal.
  assert (Hid : omap (fun r : ref => endpoints self !! r)
                  (seq 0 (length (endpoints self))) = endpoints self).
  { pose proof (read_refs (endpoints self) []) as H.
    by rewrite app_nil_r in H. }
  destruct operation as [op |]; [| done].
  destruct (truthy (Some op)); [| done].
  destruct (success_history self !! op) as [last |]; [| done].
  destruct (promote_loop_extends (sr_name last) (seq 0 (length (endpoints self)))
              (endpoints self)) as [extra ->].
  apply read_refs.
Qed.

(** The client built without a configuration file has the built-in list. *)
Lemma init_missing : tidal_client.__init__ Missing = Some scenarios.default_client.
Proof. reflexivity. Qed.

Lemma sort_endpoints_perm (self : TidalAPIClient) (operation : option string) :
  Permutation (_sort_endpoints_by_priority self operation) (endpoints self).
Proof. rewrite sort_endpoints_static. apply sorted_perm. Qed.

Lemma sort_endpoints_Sorted (self : TidalAPIClient) (operation : option string) :
  StronglySorted (le_by sort_key) (_sort_endpoints_by_priority self operation).
Proof. rewrite sort_endpoints_static. apply sorted_StronglySorted. Qed.

Lemma record_success_lookup (endpoint : Endpoint) (operation : string) (now : Z)
    (self : TidalAPIClient) :
  success_history (_record_success endpoint operation now self) !! operation
  = Some {| sr_name := name endpoint; sr_url := url endpoint; sr_timestamp := now |}.
Proof. simpl. apply lookup_insert_eq. Qed.

Lemma record_success_other (endpoint : Endpoint) (operation other : string) (now : Z)
    (self : TidalAPIClient) :
  operation ≠ other →
  success_history (_record_success endpoint operation now self) !! other
  = success_history self !! other.
Proof. intros Hne. simpl. by rewrite lookup_insert_ne. Qed.

(** A second success for the same operation replaces the first. *)
Lemma record_success_overwrites (x y : Endpoint) (operation : string) (t1 t2 : Z)
    (self : TidalAPIClient) :
  success_history (_record_success y operation t2 (_record_success x operation t1 self))
  = success_history (_record_success y operation t2 self).
Proof. simpl. apply insert_insert_eq. Qed.

Import scenarios.

(** C1. The selector returns every endpoint once, in ascending order of
    (priority, name), but the endpoint of the success record is not moved
    to the front: with the mirrors kraken and triton of equal priority and
    a success recorded for triton under ["search_tracks"], the loop leaves
    a copy of triton with priority 0 in the object store, next to the two
    dicts the list refers to, and the order for ["search_tracks"] is still
    kraken, triton. *)
Theorem C1_promotion_lost :
  let self := _record_success triton "search_tracks" 100 two_mirrors in
  success_history self !! "search_tracks"
    = Some {| sr_name := "triton"; sr_url := "https://triton.squid.wtf"; sr_timestamp := 100 |}
  ∧ triton ∈ endpoints self
  ∧ promote_loop "triton" [0; 1]%nat (endpoints self)
    = [kraken; triton; set_priority 0 triton]
  ∧ _sort_endpoints_by_priority self (Some "search_tracks") = [kraken; triton].
Proof.
  split; [apply record_success_lookup |].
  split; [simpl; set_solver |].
  split; vm_compute; reflexivity.
Qed.

(** C4. After two successes for one operation the history holds the second
    endpoint only, but that endpoint is not put first: on the built-in
    list, after successes of kraken and then wolf for ["get_track"], the
    record names wolf and wolf is still the last endpoint tried. *)
Theorem C4_overwrite_without_promotion :
  let self := _record_success wolf "get_track" 20
                (_record_success kraken "get_track" 10 default_client) in
  success_history self
    = {[ "get_track" := {| sr_name := "wolf"; sr_url := "https://wolf.qqdl.site";
                           sr_timestamp := 20 |} ]}
  ∧ name <$> _sort_endpoints_by_priority self (Some "get_track")
    = ["aether"; "chaos"; "kraken"; "phoenix"; "shiva"; "triton"; "zeus";
       "hund"; "katze"; "maus"; "vogel"; "wolf"]%string.
Proof.
  split.
  - simpl. rewrite insert_insert_eq. apply insert_empty.
  - vm_compute. reflexivity.
Qed.

(** ** The request executor *)

Section Executor.
Context (net : network) (path : string) (params : option json)
        (operation : option string).

Local Abbreviation loop := (request_loop net path params operation).
Local Abbreviation answer e := (net (url e ++ path)%string params).

Lemma requests_app (t1 t2 : list event) :
  requests (t1 ++ t2) = requests t1 ++ requests t2.
Proof. apply omap_app. Qed.

Lemma slept_app (t1 t2 : list event) : slept (t1 ++ t2) = slept t1 + slept t2.
Proof. induction t1 as [| [] t1 IH]; simpl; lia. Qed.

Lemma requests_pause (r : get_result) : requests (pause_after r) = [].
Proof. destruct r as [| c b]; simpl; [done |]. by destruct (c =? 429). Qed.

(** An endpoint that does not answer 200 costs one request, and a pause
    when it answers 429; the loop then goes on with the rest of the list
    and an unchanged client. *)
Lemma request_loop_skip (endpoint : Endpoint) (rest : list Endpoint)
    (now : Z) (self : TidalAPIClient) :
  not_200 (answer endpoint) = true →
  loop (endpoint :: rest) now self
  = after (EvGet (url endpoint ++ path)%string params :: pause_after (answer endpoint))
      (loop rest (now + slept (pause_after (answer endpoint))) self).
Proof.
  intros H. simpl.
  destruct (answer endpoint) as [[] | c body]; simpl in H; try discriminate.
  - simpl. by rewrite Z.add_0_r.
  - simpl. destruct (c =? 429) eqn:E429; simpl; [done |].
    rewrite Z.add_0_r.
    destruct ((c =? 500) || (c =? 404)); [done |].
    apply negb_true_iff in H. by rewrite H.
Qed.

(** No endpoint answers 200: the loop asks each one, in order, changes
    nothing and returns [None]. *)
Lemma request_loop_exhausted (eps : list Endpoint) (now : Z) (self : TidalAPIClient) :
  (∀ e, e ∈ eps → not_200 (answer e) = true) →
  res_outcome (loop eps now self) = Return None
  ∧ res_self (loop eps now self) = self
  ∧ requests (res_trace (loop eps now self)) = request_to path params <$> eps.
Proof.
  revert now. induction eps as [| e eps IH]; intros now H; [done |].
  rewrite request_loop_skip by (apply H; left).
  destruct (IH (now + slept (pause_after (answer e)))) as (Ho & Hs & Ht).
  { intros e' He'. apply H. by right. }
  simpl. rewrite Ho, Hs. repeat split.
  rewrite requests_app, requests_pause, Ht. done.
Qed.

(** The first endpoint that answers 200, with a body that parses, ends
    the loop: its body is returned, the success is recorded for it at
    the time the clock then shows, and the requests issued are those to
    the endpoints up to and including it. *)
Lemma request_loop_first_200 (pre : list Endpoint) (ep : Endpoint)
    (post : list Endpoint) (doc : json) (now : Z) (self : TidalAPIClient) :
  (∀ e, e ∈ pre → not_200 (answer e) = true) →
  answer ep = Response 200 (inr doc) →
  let r := loop (pre ++ ep :: post) now self in
  res_outcome r = Return (Some doc)
  ∧ res_self r
    = _record_success ep (or_else operation path) (now + slept (res_trace r)) self
  ∧ requests (res_trace r) = request_to path params <$> (pre ++ [ep]).
Proof.
  revert now. induction pre as [| e pre IH]; intros now Hpre Hep.
  - simpl. rewrite Hep. simpl. by rewrite Z.add_0_r.
  - simpl app. rewrite request_loop_skip by (apply Hpre; left).
    destruct (IH (now + slept (pause_after (answer e)))) as (Ho & Hs & Ht);
      [intros e' He'; apply Hpre; by right | done |].
    cbv zeta. simpl. rewrite Ho, Hs, slept_app, requests_app, requests_pause, Ht.
    repeat split. f_equal. lia.
Qed.

(** A returned document is the body of a 200 answer of one of the
    endpoints of the list. *)
Lemma request_loop_returns (eps : list Endpoint) (doc : json) (now : Z)
    (self : TidalAPIClient) :
  res_outcome (loop eps now self) = Return (Some doc) →
  ∃ ep, ep ∈ eps ∧ answer ep = Response 200 (inr doc).
Proof.
  revert now self. induction eps as [| e eps IH]; intros now self; simpl; [done |].
  assert (Hnext : ∀ now' self',
            res_outcome (loop eps now' self') = Return (Some doc) →
            ∃ ep, ep ∈ e :: eps ∧ answer ep = Response 200 (inr doc)).
  { intros now' self' H. destruct (IH _ _ H) as (ep & Hin & Hep).
    exists ep. split; [by right | done]. }
  destruct (answer e) as [[] | c body] eqn:He; simpl; try done; try apply Hnext.
  destruct (c =? 429); [apply Hnext |].
  destruct ((c =? 500) || (c =? 404)); [apply Hnext |].
  destruct (c =? 200) eqn:E200; [| apply Hnext].
  apply Z.eqb_eq in E200 as ->.
  destruct body as [[] | doc']; simpl; try done; try apply Hnext.
  intros [= ->]. exists e. split; [by left | done].
Qed.
End Executor.

Lemma is_failure_not_200 (r : get_result) : is_failure r = true → not_200 r = true.
Proof.
  destruct r as [[] | c body]; simpl; try done.
  rewrite !orb_true_iff, !Z.eqb_eq, negb_true_iff, Z.eqb_neq. lia.
Qed.

(** C5 as stated fails: with kraken answering 200 with a body that is not
    JSON and triton answering 200 with a document, kraken is the first
    endpoint that answers 200, yet triton is asked after it, and it is
    triton's body that is returned and triton that ends up recorded; with
    triton down instead, [None] is returned although kraken answered
    200. *)
Lemma C5_counterexample :
  let r := _make_request garbled_then_ok_net search_path search_params
             (Some "search_tracks"%string) 1000 two_mirrors in
  _sort_endpoints_by_priority two_mirrors (Some "search_tracks"%string) = [kraken; triton]
  ∧ garbled_then_ok_net (url kraken ++ search_path)%string search_params
    = Response 200 (inl RequestException)
  ∧ garbled_then_ok_net (url triton ++ search_path)%string search_params
    = Response 200 (inr found)
  ∧ requests (res_trace r)
    = [("https://kraken.squid.wtf/search/"%string, search_params);
       ("https://triton.squid.wtf/search/"%string, search_params)]
  ∧ res_outcome r = Return (Some found)
  ∧ success_history (res_self r) !! "search_tracks"%string
    = Some {| sr_name := "triton"; sr_url := "https://triton.squid.wtf";
              sr_timestamp := 1000 |}
  ∧ garbled_net (url kraken ++ search_path)%string search_params
    = Response 200 (inl RequestException)
  ∧ res_outcome (_make_request garbled_net search_path search_params
                   (Some "search_tracks"%string) 1000 two_mirrors)
    = Return None.
Proof. cbv zeta. repeat split; vm_compute; reflexivity. Qed.

(** C5, amended. When the first endpoint, in selector order, that answers
    200 has a body that parses, and every endpoint before it answers with
    a transport-level error or another status, the executor returns that
    body, records the success of that endpoint under the operation (the
    path when no operation is given), and has issued requests to the
    endpoints up to and including it and to none after it. *)
Theorem C5_first_200_returned (net : network) (path : string) (params : option json)
    (operation : option string) (now : Z) (self : TidalAPIClient)
    (pre post : list Endpoint) (ep : Endpoint) (doc : json) :
  _sort_endpoints_by_priority self operation = pre ++ ep :: post →
  (∀ e, e ∈ pre → not_200 (net (url e ++ path)%string params) = true) →
  net (url ep ++ path)%string params = Response 200 (inr doc) →
  let r := _make_request net path params operation now self in
  res_outcome r = Return (Some doc)
  ∧ res_self r
    = _record_success ep (or_else operation path) (now + slept (res_trace r)) self
  ∧ success_history (res_self r) !! or_else operation path
    = Some {| sr_name := name ep; sr_url := url ep;
              sr_timestamp := now + slept (res_trace r) |}
  ∧ requests (res_trace r) = request_to path params <$> (pre ++ [ep]).
Proof.
  intros Hsort Hpre Hep. unfold _make_request. rewrite Hsort.
  destruct (request_loop_first_200 net path params operation pre ep post doc now self
              Hpre Hep) as (Ho & Hs & Ht).
  cbv zeta. repeat split; try done.
  rewrite Hs. apply record_success_lookup.
Qed.

Lemma C5_first_200_returned_witness :
  _sort_endpoints_by_priority default_client (Some "search_tracks"%string)
    = [mirror "aether" "https://aether.squid.wtf" 1;
       mirror "chaos" "https://chaos.squid.wtf" 1]
      ++ kraken :: drop 3 (_sort_endpoints_by_priority default_client None)
  ∧ not_200 (flaky_net "https://aether.squid.wtf/search/"%string search_params) = true
  ∧ not_200 (flaky_net "https://chaos.squid.wtf/search/"%string search_params) = true
  ∧ flaky_net (url kraken ++ search_path)%string search_params = Response 200 (inr found)
  ∧ (let r := _make_request flaky_net search_path search_params
                (Some "search_tracks"%string) 1000 default_client in
     res_outcome r = Return (Some found)
     ∧ success_history (res_self r) !! "search_tracks"%string
       = Some {| sr_name := "kraken"; sr_url := "https://kraken.squid.wtf";
                 sr_timestamp := 1002 |}
     ∧ requests (res_trace r)
       = [("https://aether.squid.wtf/search/"%string, search_params);
          ("https://chaos.squid.wtf/search/"%string, search_params);
          ("https://kraken.squid.wtf/search/"%string, search_params)]).
Proof.
  split; [vm_compute; reflexivity |].
  do 3 (split; [reflexivity |]).
  pose proof (C5_first_200_returned flaky_net search_path search_params
                (Some "search_tracks"%string) 1000 default_client
                [mirror "aether" "https://aether.squid.wtf" 1;
                 mirror "chaos" "https://chaos.squid.wtf" 1]
                (drop 3 (_sort_endpoints_by_priority default_client None))
                kraken found) as H.
  destruct H as (Ho & _ & Hh & Ht).
  - vm_compute; reflexivity.
  - intros e He. repeat (apply elem_of_cons in He as [-> | He]); try reflexivity.
    by apply elem_of_nil in He.
  - reflexivity.
  - split; [exact Ho |]. split; [| exact Ht].
    refine (eq_trans Hh _). vm_compute. reflexivity.
Defined.

(** C6. When every endpoint fails, with a transport-level error or one of
    the statuses 429, 500 and 404, the executor returns [None] and raises
    nothing, leaves the client as it was, and has issued one request to
    each endpoint, in selector order. *)
Theorem C6_all_fail_returns_none (net : network) (path : string) (params : option json)
    (operation : option string) (now : Z) (self : TidalAPIClient) :
  (∀ e, e ∈ endpoints self → is_failure (net (url e ++ path)%string params) = true) →
  let r := _make_request net path params operation now self in
  res_outcome r = Return None
  ∧ res_self r = self
  ∧ requests (res_trace r)
    = request_to path params <$> _sort_endpoints_by_priority self operation
  ∧ Permutation (requests (res_trace r)) (request_to path params <$> endpoints self).
Proof.
  intros Hfail. unfold _make_request.
  destruct (request_loop_exhausted net path params operation
              (_sort_endpoints_by_priority self operation) now self)
    as (Ho & Hs & Ht).
  { intros e He. apply is_failure_not_200, Hfail.
    by rewrite <- (sort_endpoints_perm self operation). }
  cbv zeta. repeat split; try done.
  rewrite Ht. apply fmap_Permutation, sort_endpoints_perm.
Qed.

Lemma C6_all_fail_returns_none_witness :
  is_failure (down_net "https://kraken.squid.wtf/search/"%string search_params) = true
  ∧ is_failure (down_net "https://triton.squid.wtf/search/"%string search_params) = true
  ∧ (let r := _make_request down_net search_path search_params
                (Some "search_tracks"%string) 1000 two_mirrors in
     res_outcome r = Return None
     ∧ res_self r = two_mirrors
     ∧ requests (res_trace r)
       = [("https://kraken.squid.wtf/search/"%string, search_params);
          ("https://triton.squid.wtf/search/"%string, search_params)]).
Proof.
  do 2 (split; [reflexivity |]).
  destruct (C6_all_fail_returns_none down_net search_path search_params
              (Some "search_tracks"%string) 1000 two_mirrors) as (Ho & Hs & Ht & _).
  - intros e He. simpl in He.
    repeat (apply elem_of_cons in He as [-> | He]); try reflexivity.
    by apply elem_of_nil in He.
  - split; [exact Ho |]. split; [exact Hs |].
    refine (eq_trans Ht _). vm_compute. reflexivity.
Defined.

(** C10. The executor returns a document only as the parsed body of a 200
    answer of one of the endpoints; an answer with any other status, 403,
    502 and 503 included, makes the loop go on with the next endpoint
    (after the pause when the status is 429) with nothing returned and the
    client unchanged. *)
Theorem C10_only_200_returns (net : network) (path : string) (params : option json)
    (operation : option string) :
  (∀ (now : Z) (self : TidalAPIClient) (doc : json),
     res_outcome (_make_request net path params operation now self) = Return (Some doc) →
     ∃ ep, ep ∈ endpoints self ∧ net (url ep ++ path)%string params = Response 200 (inr doc))
  ∧ (∀ (endpoint : Endpoint) (rest : list Endpoint) (code : Z) (body : exn + json)
       (now : Z) (self : TidalAPIClient),
       net (url endpoint ++ path)%string params = Response code body →
       code ≠ 200 →
       request_loop net path params operation (endpoint :: rest) now self
       = after (EvGet (url endpoint ++ path)%string params
                  :: pause_after (Response code body))
           (request_loop net path params operation rest
              (now + slept (pause_after (Response code body))) self)).
Proof.
  split.
  - intros now self doc H.
    destruct (request_loop_returns net path params operation _ doc now self H)
      as (ep & Hin & Hep).
    exists ep. split; [| done].
    by rewrite <- (sort_endpoints_perm self operation).
  - intros endpoint rest code body now self Hans Hcode.
    rewrite <- Hans. apply request_loop_skip.
    rewrite Hans. simpl. by apply negb_true_iff, Z.eqb_neq.
Qed.

Lemma C10_only_200_returns_witness :
  res_outcome (_make_request flaky_net search_path search_params
                 (Some "search_tracks"%string) 1000 default_client)
    = Return (Some found)
  ∧ (∃ ep, ep ∈ endpoints default_client
           ∧ flaky_net (url ep ++ search_path)%string search_params
             = Response 200 (inr found))
  ∧ forbidden_net (url kraken ++ search_path)%string search_params
    = Response 403 (inr JNull)
  ∧ request_loop forbidden_net search_path search_params None [kraken; triton] 1000
      two_mirrors
    = after [EvGet "https://kraken.squid.wtf/search/" search_params]
        (request_loop forbidden_net search_path search_params None [triton] 1000
           two_mirrors).
Proof.
  assert (H1 : res_outcome (_make_request flaky_net search_path search_params
                              (Some "search_tracks"%string) 1000 default_client)
               = Return (Some found)) by (vm_compute; reflexivity).
  split; [exact H1 |].
  split.
  - exact (proj1 (C10_only_200_returns flaky_net search_path search_params
                    (Some "search_tracks"%string)) 1000 default_client found H1).
  - split; [reflexivity |].
    refine (eq_trans
              (proj2 (C10_only_200_returns forbidden_net search_path search_params None)
                 kraken [triton] 403 (inr JNull) 1000 two_mirrors eq_refl _) _).
    + lia.
    + reflexivity.
Defined.

(** ** The status cache *)

(** A status is returned as long as less than 300 seconds have passed
    since it was stored. *)
Lemma status_cache_fresh (track_id : Z) (status : json) (t now : Z)
    (self : TidalAPIClient) :
  now - t < 300 →
  get_download_status track_id now (set_download_status track_id status t self)
  = Some status.
Proof.
  intros H. unfold get_download_status, set_download_status. simpl.
  rewrite lookup_insert_eq. simpl.
  by apply Z.ltb_lt in H as ->.
Qed.

(** C8. A status read back at the time it was stored is the status
    stored; a cell older than 300 seconds is not returned. *)
Theorem C8_status_cache (track_id : Z) :
  (∀ (status : json) (now : Z) (self : TidalAPIClient),
     get_download_status track_id now (set_download_status track_id status now self)
     = Some status)
  ∧ (∀ (now : Z) (self : TidalAPIClient) (cached : CachedStatus),
       download_status_cache self !! track_id = Some cached →
       now - cs_timestamp cached > 300 →
       get_download_status track_id now self = None).
Proof.
  split.
  - intros status now self. apply status_cache_fresh. lia.
  - intros now self cached Hc Hage. unfold get_download_status. rewrite Hc.
    destruct (now - cs_timestamp cached <? 300) eqn:E; [| done].
    apply Z.ltb_lt in E. lia.
Qed.

Lemma C8_status_cache_witness :
  get_download_status 1 100 (set_download_status 1 ready 100 two_mirrors) = Some ready
  ∧ download_status_cache (set_download_status 1 ready 100 two_mirrors) !! 1
    = Some {| cs_status := ready; cs_timestamp := 100 |}
  ∧ 401 - 100 > 300
  ∧ get_download_status 1 401 (set_download_status 1 ready 100 two_mirrors) = None.
Proof.
  split; [apply (proj1 (C8_status_cache 1)) |].
  assert (H : download_status_cache (set_download_status 1 ready 100 two_mirrors) !! 1
              = Some {| cs_status := ready; cs_timestamp := 100 |})
    by (vm_compute; reflexivity).
  split; [exact H |].
  split; [lia |].
  apply (proj2 (C8_status_cache 1) 401 _ _ H). simpl. lia.
Defined.

(** ** Loading the endpoints *)

Lemma endpoint_json_roundtrip (e : Endpoint) :
  endpoint_of_json (endpoint_to_json e) = Some e.
Proof. destruct e as [n u [p |]]; reflexivity. Qed.

Lemma endpoints_json_roundtrip (l : list Endpoint) :
  endpoints_of_json (endpoints_to_json l) = Some l.
Proof.
  unfold endpoints_of_json, endpoints_to_json.
  apply mapM_Some, Forall2_fmap_l, Forall_Forall2_diag, Forall_forall.
  intros e _. apply endpoint_json_roundtrip.
Qed.

(** C7 as stated fails: a configuration that stores a number under
    [endpoints] is not well formed, and the number is what is loaded. *)
Lemma C7_counterexample :
  well_formed_config bad_config = false
  ∧ _load_endpoints bad_config = JNum 42
  ∧ _load_endpoints bad_config ≠ endpoints_to_json default_endpoints.
Proof. repeat split; done. Qed.

(** C7, amended. The value stored under [endpoints] is returned as it is
    whenever the file holds a JSON object with that key, so a well-formed
    configuration gives the configured list; the built-in list is returned
    when the file is missing, cannot be read or parsed, holds a value that
    is not an object, or holds an object without the key.  The built-in
    list has 12 mirrors with distinct names, seven of priority 1 and five
    of priority 2. *)
Theorem C7_load_endpoints :
  (∀ (data : list (string * json)) (j : json),
     dict_get "endpoints" data = Some j → _load_endpoints (Parsed (JObj data)) = j)
  ∧ (∀ l : list Endpoint,
       endpoints_of_json
         (_load_endpoints (Parsed (JObj [("endpoints"%string, endpoints_to_json l)])))
       = Some l)
  ∧ _load_endpoints Missing = endpoints_to_json default_endpoints
  ∧ _load_endpoints Unreadable = endpoints_to_json default_endpoints
  ∧ (∀ j : json, (∀ data, j ≠ JObj data) →
       _load_endpoints (Parsed j) = endpoints_to_json default_endpoints)
  ∧ (∀ data : list (string * json),
       dict_get "endpoints" data = None →
       _load_endpoints (Parsed (JObj data)) = endpoints_to_json default_endpoints)
  ∧ length default_endpoints = 12%nat
  ∧ NoDup (name <$> default_endpoints)
  ∧ priority <$> default_endpoints = replicate 7 (Some 1) ++ replicate 5 (Some 2).
Proof.
  split; [by intros data j H; simpl; rewrite H |].
  split; [intros l; apply endpoints_json_roundtrip |].
  do 2 (split; [reflexivity |]).
  split; [intros [] H; try reflexivity; by destruct (H fields) |].
  split; [by intros data H; simpl; rewrite H |].
  split; [reflexivity |].
  split; [| reflexivity].
  by apply (bool_decide_unpack _).
Qed.

Lemma C7_load_endpoints_witness :
  dict_get "endpoints" [("endpoints"%string, endpoints_to_json [kraken])]
    = Some (endpoints_to_json [kraken])
  ∧ _load_endpoints one_mirror_config = endpoints_to_json [kraken]
  ∧ _load_endpoints (Parsed (JArr [])) = endpoints_to_json default_endpoints
  ∧ dict_get "endpoints" [("mirrors"%string, JArr [])] = None
  ∧ _load_endpoints (Parsed (JObj [("mirrors"%string, JArr [])]))
    = endpoints_to_json default_endpoints.
Proof.
  destruct C7_load_endpoints as (Hkey & _ & _ & _ & Hobj & Hnokey & _).
  split; [reflexivity |].
  split; [exact (Hkey [("endpoints"%string, endpoints_to_json [kraken])] _ eq_refl) |].
  split; [apply Hobj; discriminate |].
  split; [reflexivity |].
  exact (Hnokey [("mirrors"%string, JArr [])] eq_refl).
Defined.

(** ** The download state store *)

Section Store.
Import download_state.

Lemma tagged_status (tag : string) (e : entry) :
  e !! "status"%string = None → tagged tag e !! "status"%string = Some (JStr tag).
Proof.
  intros H. unfold tagged. rewrite lookup_union_r by done.
  apply lookup_singleton_eq.
Qed.

Lemma tagged_field (tag k : string) (e : entry) (v : json) :
  e !! k = Some v → tagged tag e !! k = Some v.
Proof. intros H. unfold tagged. by apply lookup_union_Some_l. Qed.

(** After [set_completed] the item is not active and has the completed
    entry just written. *)
Lemma set_completed_state (i : Z) (filename : string)
    (metadata : option (list (string * json))) (now : Z) (self : DownloadStateManager) :
  let self' := set_completed i filename metadata now self in
  active (state self') !! str i = None
  ∧ completed (state self') !! str i
    = Some {[ "filename"%string := JStr filename;
              "timestamp"%string := JNum now;
              "metadata"%string := or_empty metadata ]}.
Proof.
  simpl. split; [apply lookup_delete_eq | apply lookup_insert_eq].
Qed.
End Store.

(** C9. After [set_downloading(i)] and [set_completed(i, filename)] the
    item is not in the active mapping, is in the completed mapping with
    that filename, and [get_download_state(i)] returns the completed entry
    with ["status"] set to ["completed"]. *)
Theorem C9_downloading_then_completed (i progress : Z) (filename : string)
    (m1 m2 : option (list (string * json))) (t1 t2 : Z)
    (self : download_state.DownloadStateManager) :
  let self' := download_state.set_completed i filename m2 t2
                 (download_state.set_downloading i progress m1 t1 self) in
  download_state.active (download_state.state self') !! download_state.str i = None
  ∧ (∃ e, download_state.completed (download_state.state self') !! download_state.str i
          = Some e
          ∧ e !! "filename"%string = Some (JStr filename))
  ∧ (∃ doc, download_state.get_download_state i self' = Some doc
            ∧ doc !! "status"%string = Some (JStr "completed")
            ∧ doc !! "filename"%string = Some (JStr filename)
            ∧ doc !! "timestamp"%string = Some (JNum t2)).
Proof.
  intros self'.
  destruct (set_completed_state i filename m2 t2
              (download_state.set_downloading i progress m1 t1 self)) as [Ha Hc].
  fold self' in Ha, Hc.
  split; [exact Ha |].
  split.
  - eexists. split; [exact Hc |]. by simplify_map_eq.
  - unfold download_state.get_download_state. rewrite Ha, Hc.
    eexists. split; [done |].
    split; [apply tagged_status; by simplify_map_eq |].
    split; apply tagged_field; by simplify_map_eq.
Qed.

Section StoreInvariant.
Import download_state.

Lemma empty_one_state : one_state_per_item empty_state.
Proof. intros k. split; intros [e He]; simpl in He; by rewrite lookup_empty in He. Qed.

(** Each call that keeps the mappings apart preserves the invariant. *)
Lemma apply_op_one_state (now : Z) (o : op) (self : DownloadStateManager) :
  one_state_per_item (state self) →
  keeps_apart (state self) o →
  one_state_per_item (state (apply_op now o self)).
Proof.
  intros Hinv Hok k. destruct (Hinv k) as [Hact Hcomp].
  destruct o as [i p m | i p | i f m | i e m | i]; simpl in *.
  - (* set_downloading *)
    destruct Hok as [Hc Hf].
    destruct (decide (str i = k)) as [<- | Hne].
    + rewrite Hc, Hf. split; [done |]. by intros [? ?].
    + by rewrite lookup_insert_ne.
  - (* update_progress *)
    unfold update_progress.
    destruct (active (state self) !! str i) as [e |] eqn:Hi; [| done].
    simpl. destruct (decide (str i = k)) as [<- | Hne].
    + split; [| done]. intros _. apply Hact. by rewrite Hi.
    + by rewrite lookup_insert_ne.
  - (* set_completed *)
    destruct (decide (str i = k)) as [<- | Hne].
    + rewrite lookup_delete_eq, Hok. split; [by intros [? ?] | done].
    + by rewrite lookup_delete_ne, lookup_insert_ne.
  - (* set_failed *)
    destruct (decide (str i = k)) as [<- | Hne].
    + rewrite lookup_delete_eq, Hok. split; by intros [? ?].
    + by rewrite lookup_delete_ne, lookup_insert_ne.
  - (* clear_download *)
    destruct (decide (str i = k)) as [<- | Hne].
    + rewrite !lookup_delete_eq. split; by intros [? ?].
    + by rewrite !lookup_delete_ne.
Qed.

Lemma run_one_state (calls : list (Z * op)) (self : DownloadStateManager) :
  one_state_per_item (state self) →
  all_keep_apart calls self →
  one_state_per_item (state (run calls self)).
Proof.
  revert self. induction calls as [| [now o] calls IH]; intros self Hinv Hok; [done |].
  destruct Hok as [Hstep Hrest]. simpl in *.
  apply IH; [by apply apply_op_one_state | done].
Qed.

(** The other calls break it: after them the item is in two mappings. *)
Lemma apply_op_two_states (now : Z) (o : op) (self : DownloadStateManager) :
  ¬ keeps_apart (state self) o →
  ¬ one_state_per_item (state (apply_op now o self)).
Proof.
  intros Hbad Hinv.
  destruct o as [i p m | i p | i f m | i e m | i]; simpl in Hbad; try by apply Hbad.
  - (* set_downloading *)
    destruct (Hinv (str i)) as [Hact _]. simpl in Hact.
    rewrite lookup_insert_eq in Hact. apply Hbad, Hact. by eexists.
  - (* set_completed *)
    destruct (Hinv (str i)) as [_ Hcomp]. simpl in Hcomp.
    rewrite lookup_insert_eq in Hcomp. apply Hbad, Hcomp. by eexists.
  - (* set_failed *)
    destruct (Hinv (str i)) as [_ Hcomp]. simpl in Hcomp.
    rewrite lookup_insert_eq in Hcomp.
    destruct (completed (state self) !! str i) as [e' |] eqn:Hc; [| by apply Hbad].
    assert (Some _ = None) as Habs by (apply Hcomp; by eexists). discriminate.
Qed.

(** Whatever came before, [set_completed] and [set_failed] leave the item
    out of the active mapping, and [clear_download] out of all three. *)
Lemma terminal_not_active (i : Z) (s : string)
    (m : option (list (string * json))) (now : Z) (self : DownloadStateManager) :
  active (state (set_completed i s m now self)) !! str i = None
  ∧ active (state (set_failed i s m now self)) !! str i = None.
Proof. split; apply lookup_delete_eq. Qed.

Lemma clear_download_absent (i : Z) (self : DownloadStateManager) :
  get_download_state i (clear_download i self) = None.
Proof.
  unfold get_download_state, clear_download. simpl.
  by rewrite !lookup_delete_eq.
Qed.
End StoreInvariant.

(** C2 as stated fails: completing item 7 and then starting it again
    leaves it in the active and in the completed mapping. *)
Lemma C2_counterexample :
  let st := download_state.state
              (download_state.run restart_calls download_state.empty_store) in
  is_Some (download_state.active st !! download_state.str 7)
  ∧ is_Some (download_state.completed st !! download_state.str 7)
  ∧ ¬ download_state.one_state_per_item st.
Proof.
  assert (Ha : is_Some (download_state.active
                          (download_state.state
                             (download_state.run restart_calls download_state.empty_store))
                        !! download_state.str 7))
    by (vm_compute; eauto).
  assert (Hc : download_state.completed
                 (download_state.state
                    (download_state.run restart_calls download_state.empty_store))
               !! download_state.str 7 ≠ None)
    by (vm_compute; discriminate).
  cbv zeta. split; [exact Ha |]. split.
  - by apply not_eq_None_Some.
  - intros Hinv. destruct (Hinv (download_state.str 7)) as [H _].
    destruct (H Ha) as [Hnone _]. by apply Hc.
Qed.

(** C2, amended. Starting from the empty store, every sequence of calls
    in which no item is made active while it has a completed or failed
    entry, and no item is given a completed (failed) entry while it has a
    failed (completed) one, leaves each key in at most one of the three
    mappings. *)
Theorem C2_one_state_when_kept_apart (calls : list (Z * download_state.op)) :
  download_state.all_keep_apart calls download_state.empty_store →
  download_state.one_state_per_item
    (download_state.state (download_state.run calls download_state.empty_store)).
Proof. apply run_one_state, empty_one_state. Qed.

Lemma C2_one_state_when_kept_apart_witness :
  download_state.all_keep_apart orderly_calls download_state.empty_store
  ∧ download_state.one_state_per_item
      (download_state.state (download_state.run orderly_calls download_state.empty_store)).
Proof.
  assert (H : download_state.all_keep_apart orderly_calls download_state.empty_store).
  { repeat split; vm_compute; reflexivity. }
  split; [exact H |].
  exact (C2_one_state_when_kept_apart orderly_calls H).
Defined.

Section Sweep.
Import download_state.

Lemma delete_all_lookup (ks : list string) (m : gmap string entry) (k : string) :
  delete_all ks m !! k = if decide (k ∈ ks) then None else m !! k.
Proof.
  induction ks as [| j ks IH]; simpl.
  - destruct (decide (k ∈ [])) as [H |]; [by apply elem_of_nil in H | done].
  - rewrite lookup_delete, IH.
    destruct (decide (j = k)) as [-> | Hjk].
    + rewrite decide_True; [done | by left].
    + destruct (decide (k ∈ ks)) as [Hin | Hin].
      * rewrite decide_True; [done | by right].
      * rewrite decide_False; [done |].
        intros [? | ?]%elem_of_cons; done.
Qed.

Lemma expired_keys_elem (t : Z) (m : gmap string entry) (ks : list string) :
  expired_keys t m = Some ks →
  ∀ k, k ∈ ks ↔ ∃ d ts, m !! k = Some d ∧ timestamp_of d = Some ts ∧ t - ts > max_age.
Proof.
  unfold expired_keys. intros H k.
  setoid_rewrite <- elem_of_map_to_list.
  revert ks H. induction (map_to_list m) as [| [j d] l IH]; intros ks H; simpl in *.
  - injection H as <-. split; [by intros ?%elem_of_nil |].
    intros (? & ? & ?%elem_of_nil & _). done.
  - destruct (timestamp_of d) as [ts |] eqn:Hts; [| done]. simpl in H.
    destruct (foldr _ _ l) as [ks' |] eqn:Hl; [| done]. simpl in H.
    injection H as <-. specialize (IH ks' eq_refl).
    case_bool_decide as Hage.
    + rewrite elem_of_cons, IH. split.
      * intros [-> | (d' & ts' & Hin & Hrest)].
        -- exists d, ts. split; [by left | done].
        -- exists d', ts'. split; [by right | done].
      * intros (d' & ts' & Hin & Ht' & Ha).
        apply elem_of_cons in Hin as [[= -> ->] | Hin]; [by left |].
        right. by exists d', ts'.
    + rewrite IH. split.
      * intros (d' & ts' & Hin & Hrest). exists d', ts'. split; [by right | done].
      * intros (d' & ts' & Hin & Ht' & Ha).
        apply elem_of_cons in Hin as [[= -> ->] | Hin].
        -- rewrite Hts in Ht'. injection Ht' as <-. done.
        -- by exists d', ts'.
Qed.

Lemma expired_keys_total (t : Z) (m : gmap string entry) :
  (∀ k d, m !! k = Some d → is_Some (timestamp_of d)) →
  is_Some (expired_keys t m).
Proof.
  unfold expired_keys. intros H.
  assert (Hl : ∀ kd, kd ∈ map_to_list m → is_Some (timestamp_of kd.2)).
  { intros [k d] Hin. apply elem_of_map_to_list in Hin. by eapply H. }
  induction (map_to_list m) as [| [j d] l IH]; simpl; [by eexists |].
  destruct (Hl (j, d)) as [ts Hts]; [by left |]. simpl in Hts. rewrite Hts. simpl.
  destruct IH as [ks Hks]; [intros kd Hin; apply Hl; by right |].
  rewrite Hks. simpl. by eexists.
Qed.

(** The list comprehension raises nothing only when every timestamp
    can be subtracted from the clock. *)
Lemma expired_keys_readable (t : Z) (m : gmap string entry) (ks : list string) :
  expired_keys t m = Some ks →
  ∀ k d, m !! k = Some d → is_Some (timestamp_of d).
Proof.
  unfold expired_keys. intros H k d Hd. apply elem_of_map_to_list in Hd.
  revert ks H. induction (map_to_list m) as [| [j d'] l IH]; intros ks H;
    [by apply elem_of_nil in Hd |].
  simpl in H. destruct (timestamp_of d') as [ts |] eqn:Hts; [| done]. simpl in H.
  destruct (foldr _ _ l) as [ks' |] eqn:Hl; [| done].
  apply elem_of_cons in Hd as [[= -> ->] | Hd]; [by rewrite Hts |].
  by apply (IH Hd ks').
Qed.

(** One mapping after its sweep: the entries that stay are those whose
    age is at most 3600 seconds. *)
Lemma sweep_lookup (t : Z) (m : gmap string entry) (ks : list string)
    (k : string) (d : entry) :
  expired_keys t m = Some ks →
  delete_all ks m !! k = Some d
  ↔ m !! k = Some d ∧ ∃ ts, timestamp_of d = Some ts ∧ t - ts ≤ max_age.
Proof.
  intros Hks. rewrite delete_all_lookup.
  pose proof (expired_keys_elem t m ks Hks k) as Hel.
  destruct (decide (k ∈ ks)) as [Hin | Hout].
  - split; [done |]. intros [Hd (ts & Hts & Hage)].
    apply Hel in Hin as (d' & ts' & Hd' & Hts' & Hage').
    rewrite Hd in Hd'. injection Hd' as <-.
    rewrite Hts in Hts'. injection Hts' as <-. lia.
  - split; [| by intros [? _]].
    intros Hd. split; [done |].
    destruct (timestamp_of d) as [ts |] eqn:Hts.
    + exists ts. split; [done |].
      destruct (decide (t - ts ≤ max_age)); [done |].
      exfalso. apply Hout, Hel. exists d, ts. repeat split; [done.. | lia].
    + destruct (expired_keys_readable t m ks Hks k d Hd) as [ts Hts'].
      by rewrite Hts in Hts'.
Qed.
End Sweep.

Section Construction.
Import download_state.

(** What construction leaves in memory: the active mapping as loaded,
    and of the completed and failed mappings the entries whose age is at
    most 3600 seconds. *)
Lemma init_sweeps (f : file) (t : Z) (self : DownloadStateManager) :
  download_state.__init__ f t = Some self →
  active (state self) = active (_load_state f)
  ∧ (∀ k d, completed (state self) !! k = Some d
            ↔ completed (_load_state f) !! k = Some d
              ∧ ∃ ts, timestamp_of d = Some ts ∧ t - ts ≤ max_age)
  ∧ (∀ k d, failed (state self) !! k = Some d
            ↔ failed (_load_state f) !! k = Some d
              ∧ ∃ ts, timestamp_of d = Some ts ∧ t - ts ≤ max_age).
Proof.
  unfold download_state.__init__, _cleanup_old_entries. simpl.
  destruct (expired_keys t (completed (_load_state f))) as [kc |] eqn:Hc; [| done].
  simpl.
  destruct (expired_keys t (failed (_load_state f))) as [kf |] eqn:Hf; [| done].
  simpl. intros [= <-].
  assert (Hstate : ∀ s1 s2 : DownloadStateManager,
            state (match kf with [] => s1 | _ :: _ => _save_state s2 end)
            = state (match kf with [] => s1 | _ :: _ => s2 end))
    by (by destruct kf).
  rewrite Hstate. replace (state (match kf with [] => _ | _ :: _ => _ end))
    with (with_failed (delete_all kf (failed (_load_state f)))
            (with_completed (delete_all kc (completed (_load_state f)))
               (_load_state f))) by (by destruct kf).
  simpl. split; [done |].
  split; intros k d; by apply sweep_lookup.
Qed.

(** Construction raises nothing when every completed and failed entry
    has a timestamp that can be subtracted from the clock. *)
Lemma init_total (f : file) (t : Z) :
  (∀ k d, completed (_load_state f) !! k = Some d → is_Some (timestamp_of d)) →
  (∀ k d, failed (_load_state f) !! k = Some d → is_Some (timestamp_of d)) →
  is_Some (download_state.__init__ f t).
Proof.
  intros Hc Hf. unfold download_state.__init__, _cleanup_old_entries. simpl.
  destruct (expired_keys_total t _ Hc) as [kc ->]. simpl.
  destruct (expired_keys_total t _ Hf) as [kf ->]. simpl.
  by eexists.
Qed.

(** The state is written back when, and only when, a failed entry was
    removed. *)
Lemma init_persists_iff (f : file) (t : Z) (self : DownloadStateManager) :
  download_state.__init__ f t = Some self →
  (expired_keys t (failed (_load_state f)) ≠ Some [] → state_file self = Saved (state self))
  ∧ (expired_keys t (failed (_load_state f)) = Some [] → state_file self = f).
Proof.
  unfold download_state.__init__, _cleanup_old_entries. simpl.
  destruct (expired_keys t (completed (_load_state f))) as [kc |]; [| done].
  simpl.
  destruct (expired_keys t (failed (_load_state f))) as [[| k kf] |]; [| | done];
    simpl; intros [= <-]; split; try done.
Qed.
End Construction.

(** C3. Construction removes the completed and failed entries older than
    3600 seconds and keeps the others, but writes the state back only when
    a failed entry was removed: from a state file whose only entry is a
    completed one written 10000 seconds ago, the entry is removed in
    memory and the file is left as it was; the same entry under [failed]
    is removed and the file rewritten. *)
Theorem C3_sweep_of_completed_not_persisted :
  (∃ self, download_state.__init__ stale_completed 10000 = Some self
           ∧ download_state.completed (download_state.state self) !! "7"%string = None
           ∧ download_state.state_file self = stale_completed
           ∧ download_state.state_file self
             ≠ download_state.Saved (download_state.state self))
  ∧ (∃ self, download_state.__init__ stale_failed 10000 = Some self
             ∧ download_state.failed (download_state.state self) !! "7"%string = None
             ∧ download_state.state_file self
               = download_state.Saved (download_state.state self)).
Proof.
  split.
  - destruct (download_state.__init__ stale_completed 10000) as [self |] eqn:E;
      [| by vm_compute in E].
    exists self. split; [done |].
    assert (Hc : download_state.completed (download_state.state self) !! "7"%string = None).
    { injection E as <-. vm_compute. reflexivity. }
    assert (Hf : download_state.state_file self = stale_completed).
    { injection E as <-. vm_compute. reflexivity. }
    repeat split; [done.. |].
    rewrite Hf. intros [= H].
    rewrite <- H in Hc. vm_compute in Hc. discriminate.
  - destruct (download_state.__init__ stale_failed 10000) as [self |] eqn:E;
      [| by vm_compute in E].
    exists self. split; [done |].
    split; injection E as <-; vm_compute; reflexivity.
Qed.

(** * Further properties of the client *)

(** ** The selector *)

(** X1. For every client and operation the selector returns each endpoint
    of the list exactly once, arranged so that no endpoint comes after one
    with a larger (priority, name) key, a missing priority counting as
    999. *)
Theorem X1_selector_sorts_all (self : TidalAPIClient) (operation : option string) :
  Permutation (_sort_endpoints_by_priority self operation) (endpoints self)
  ∧ StronglySorted
      (fun x y => key_lt (default 999 (priority y), name y)
                         (default 999 (priority x), name x) = false)
      (_sort_endpoints_by_priority self operation).
Proof.
  split; [apply sort_endpoints_perm |].
  exact (sort_endpoints_Sorted self operation).
Qed.

(** X2. The order the selector returns depends on the endpoint list only:
    it is the same for every operation, and recording a success does not
    change it. *)
Theorem X2_selector_ignores_history (self : TidalAPIClient)
    (operation operation' : option string) (endpoint : Endpoint) (key : string) (now : Z) :
  _sort_endpoints_by_priority self operation
  = _sort_endpoints_by_priority self operation'
  ∧ _sort_endpoints_by_priority (_record_success endpoint key now self) operation
    = _sort_endpoints_by_priority self operation.
Proof.
  split; by rewrite !sort_endpoints_static.
Qed.

(** ** The executor *)

Section ExecutorMore.
Context (net : network) (path : string) (params : option json)
        (operation : option string).

Local Abbreviation loop' := (request_loop net path params operation).
Local Abbreviation answer' e := (net (url e ++ path)%string params).

(** The endpoints that do not answer 200 at the head of the list are asked
    in order, and the loop then runs on the rest with the same client and
    the clock advanced by the pauses. *)
Lemma request_loop_skip_all (pre rest : list Endpoint) (now : Z) (self : TidalAPIClient) :
  (∀ e, e ∈ pre → not_200 (answer' e) = true) →
  ∃ tr, loop' (pre ++ rest) now self = after tr (loop' rest (now + slept tr) self)
        ∧ requests tr = request_to path params <$> pre.
Proof.
  revert now. induction pre as [| e pre IH]; intros now H.
  - exists []. simpl. rewrite Z.add_0_r. by destruct (loop' rest now self).
  - simpl app. rewrite request_loop_skip by (apply H; left).
    destruct (IH (now + slept (pause_after (answer' e)))) as (tr & Htr & Hreq);
      [intros e' He'; apply H; by right |].
    exists (EvGet (url e ++ path)%string params :: pause_after (answer' e) ++ tr).
    split.
    + replace (now + slept (EvGet (url e ++ path)%string params
                              :: pause_after (answer' e) ++ tr))
        with (now + slept (pause_after (answer' e)) + slept tr)
        by (simpl; rewrite slept_app; lia).
      rewrite Htr. unfold after. simpl. by rewrite <- app_assoc.
    + simpl. rewrite requests_app, requests_pause, Hreq. done.
Qed.

(** The requests of a run are an initial part of the requests to the
    list. *)
Lemma request_loop_prefix (eps : list Endpoint) (now : Z) (self : TidalAPIClient) :
  ∃ k, requests (res_trace (loop' eps now self)) = take k (request_to path params <$> eps).
Proof.
  revert now self. induction eps as [| e eps IH]; intros now self; [by exists 0%nat |].
  assert (Hnext : ∀ evs now' self',
            requests evs = [] →
            ∃ k, requests (res_trace
                   (after [EvGet (url e ++ path)%string params]
                      (after evs (loop' eps now' self'))))
                 = take k (request_to path params <$> e :: eps)).
  { intros evs now' self' Hevs. destruct (IH now' self') as [k Hk].
    exists (S k). simpl. rewrite requests_app, Hevs, Hk. done. }
  assert (Hstop : ∀ o self',
            ∃ k, requests (res_trace
                   (after [EvGet (url e ++ path)%string params] (finish o self')))
                 = take k (request_to path params <$> e :: eps)).
  { intros o self'. exists 1%nat. simpl. by rewrite take_0. }
  simpl.
  destruct (answer' e) as [[] | c body];
    [apply (Hnext []); done | apply Hstop |].
  destruct (c =? 429); [apply (Hnext [EvSleep 2]); done |].
  destruct ((c =? 500) || (c =? 404)); [apply (Hnext []); done |].
  destruct (c =? 200); [| apply (Hnext []); done].
  destruct body as [[] | doc]; [apply (Hnext []); done | apply Hstop | apply Hstop].
Qed.

(** A run leaves the endpoint list and the status cache alone, and of the
    success history changes at most the record of its own key. *)
Lemma request_loop_frame (eps : list Endpoint) (now : Z) (self : TidalAPIClient) :
  endpoints (res_self (loop' eps now self)) = endpoints self
  ∧ download_status_cache (res_self (loop' eps now self)) = download_status_cache self
  ∧ ∀ k, k ≠ or_else operation path →
         success_history (res_self (loop' eps now self)) !! k = success_history self !! k.
Proof.
  revert now self. induction eps as [| e eps IH]; intros now self; [done |].
  assert (Hrec : ∀ now' t,
            endpoints (res_self (loop' eps now'
                         (_record_success e (or_else operation path) t self)))
            = endpoints self
            ∧ download_status_cache
                (res_self (loop' eps now'
                             (_record_success e (or_else operation path) t self)))
              = download_status_cache self
            ∧ ∀ k, k ≠ or_else operation path →
                   success_history
                     (res_self (loop' eps now'
                                  (_record_success e (or_else operation path) t self)))
                   !! k = success_history self !! k).
  { intros now' t. destruct (IH now' (_record_success e (or_else operation path) t self))
      as (He & Hc & Hh).
    split; [done |]. split; [done |].
    intros k Hk. rewrite (Hh k Hk). by apply record_success_other. }
  simpl.
  destruct (answer' e) as [[] | c body]; [apply IH | done |].
  destruct (c =? 429); [apply IH |].
  destruct ((c =? 500) || (c =? 404)); [apply IH |].
  destruct (c =? 200); [| apply IH].
  destruct body as [[] | doc]; simpl; [apply Hrec | |].
  - split; [done |]. split; [done |]. intros k Hk. by rewrite lookup_insert_ne.
  - split; [done |]. split; [done |]. intros k Hk. by rewrite lookup_insert_ne.
Qed.
End ExecutorMore.

(** X3. For every network, the requests of a call are an initial part of
    the requests to the endpoints in selector order, each to the
    endpoint's URL followed by the path and with the parameters given: no
    endpoint is asked twice or out of turn, and there are at most as many
    requests as endpoints. *)
Theorem X3_requests_follow_selector_order (net : network) (path : string)
    (params : option json) (operation : option string) (now : Z) (self : TidalAPIClient) :
  let r := _make_request net path params operation now self in
  (∃ k, requests (res_trace r)
        = take k (request_to path params <$> _sort_endpoints_by_priority self operation))
  ∧ (length (requests (res_trace r)) ≤ length (endpoints self))%nat.
Proof.
  cbv zeta. unfold _make_request.
  destruct (request_loop_prefix net path params operation
              (_sort_endpoints_by_priority self operation) now self) as [k Hk].
  split; [by exists k |].
  rewrite Hk, length_take, length_fmap.
  rewrite (Permutation_length (sort_endpoints_perm self operation)). lia.
Qed.

(** X4. A call leaves the endpoint list and the status cache as they were,
    and changes no success record other than the one of its own key (the
    operation, or the path when no operation is given). *)
Theorem X4_make_request_frame (net : network) (path : string) (params : option json)
    (operation : option string) (now : Z) (self : TidalAPIClient) (k : string) :
  k ≠ or_else operation path →
  let r := _make_request net path params operation now self in
  endpoints (res_self r) = endpoints self
  ∧ download_status_cache (res_self r) = download_status_cache self
  ∧ success_history (res_self r) !! k = success_history self !! k.
Proof.
  intros Hk. cbv zeta. unfold _make_request.
  destruct (request_loop_frame net path params operation
              (_sort_endpoints_by_priority self operation) now self) as (He & Hc & Hh).
  split; [done |]. split; [done |]. by apply Hh.
Qed.

Lemma X4_make_request_frame_witness :
  "search_albums"%string ≠ or_else (Some "search_tracks"%string) search_path
  ∧ (let r := _make_request flaky_net search_path search_params
                (Some "search_tracks"%string) 1000 default_client in
     endpoints (res_self r) = endpoints default_client
     ∧ download_status_cache (res_self r) = download_status_cache default_client
     ∧ success_history (res_self r) !! "search_albums"%string
       = success_history default_client !! "search_albums"%string).
Proof.
  assert (H : "search_albums"%string ≠ or_else (Some "search_tracks"%string) search_path)
    by discriminate.
  split; [exact H |].
  exact (X4_make_request_frame flaky_net search_path search_params
           (Some "search_tracks"%string) 1000 default_client "search_albums" H).
Defined.

(** X5. When the first endpoint in selector order answers 429 and the
    second answers 200 with a body that parses, the call issues the two
    requests with one pause of two seconds between them, returns the body
    of the second, and records the second endpoint with the time after the
    pause. *)
Theorem X5_rate_limited_then_ok (net : network) (path : string) (params : option json)
    (operation : option string) (now : Z) (self : TidalAPIClient)
    (e1 e2 : Endpoint) (post : list Endpoint) (b : exn + json) (doc : json) :
  _sort_endpoints_by_priority self operation = e1 :: e2 :: post →
  net (url e1 ++ path)%string params = Response 429 b →
  net (url e2 ++ path)%string params = Response 200 (inr doc) →
  let r := _make_request net path params operation now self in
  res_outcome r = Return (Some doc)
  ∧ res_trace r = [EvGet (url e1 ++ path)%string params; EvSleep 2;
                   EvGet (url e2 ++ path)%string params]
  ∧ success_history (res_self r) !! or_else operation path
    = Some {| sr_name := name e2; sr_url := url e2; sr_timestamp := now + 2 |}.
Proof.
  intros Hsort H1 H2. cbv zeta. unfold _make_request. rewrite Hsort.
  simpl. rewrite H1, H2. simpl.
  split; [done |]. split; [done |]. apply lookup_insert_eq.
Qed.

Lemma X5_rate_limited_then_ok_witness :
  _sort_endpoints_by_priority two_mirrors (Some "search_tracks"%string) = [kraken; triton]
  ∧ limited_net (url kraken ++ search_path)%string search_params = Response 429 (inr JNull)
  ∧ limited_net (url triton ++ search_path)%string search_params = Response 200 (inr found)
  ∧ (let r := _make_request limited_net search_path search_params
                (Some "search_tracks"%string) 1000 two_mirrors in
     res_outcome r = Return (Some found)
     ∧ res_trace r = [EvGet "https://kraken.squid.wtf/search/" search_params; EvSleep 2;
                      EvGet "https://triton.squid.wtf/search/" search_params]
     ∧ success_history (res_self r) !! "search_tracks"%string
       = Some {| sr_name := "triton"; sr_url := "https://triton.squid.wtf";
                 sr_timestamp := 1002 |}).
Proof.
  assert (Hs : _sort_endpoints_by_priority two_mirrors (Some "search_tracks"%string)
               = [kraken; triton]) by (vm_compute; reflexivity).
  split; [exact Hs |]. do 2 (split; [reflexivity |]).
  exact (X5_rate_limited_then_ok limited_net search_path search_params
           (Some "search_tracks"%string) 1000 two_mirrors kraken triton [] (inr JNull)
           found Hs eq_refl eq_refl).
Defined.

(** X6. An exception of [session.get] that is not a [RequestException] is
    not caught: it ends the call at that endpoint, after the endpoints
    before it were asked, with no later endpoint asked and the client
    unchanged. *)
Theorem X6_other_exception_propagates (net : network) (path : string)
    (params : option json) (operation : option string) (now : Z) (self : TidalAPIClient)
    (pre post : list Endpoint) (ep : Endpoint) :
  _sort_endpoints_by_priority self operation = pre ++ ep :: post →
  (∀ e, e ∈ pre → not_200 (net (url e ++ path)%string params) = true) →
  net (url ep ++ path)%string params = Raises OtherException →
  let r := _make_request net path params operation now self in
  res_outcome r = Raise OtherException
  ∧ res_self r = self
  ∧ requests (res_trace r) = request_to path params <$> (pre ++ [ep]).
Proof.
  intros Hsort Hpre Hep. cbv zeta. unfold _make_request. rewrite Hsort.
  destruct (request_loop_skip_all net path params operation pre (ep :: post) now self Hpre)
    as (tr & -> & Hreq).
  simpl. rewrite Hep. simpl.
  split; [done |]. split; [done |].
  rewrite requests_app, Hreq, fmap_app. done.
Qed.

Lemma X6_other_exception_propagates_witness :
  _sort_endpoints_by_priority two_mirrors None = [] ++ kraken :: [triton]
  ∧ broken_net (url kraken ++ search_path)%string search_params = Raises OtherException
  ∧ (let r := _make_request broken_net search_path search_params None 1000 two_mirrors in
     res_outcome r = Raise OtherException
     ∧ res_self r = two_mirrors
     ∧ requests (res_trace r) = [("https://kraken.squid.wtf/search/"%string, search_params)]).
Proof.
  assert (Hs : _sort_endpoints_by_priority two_mirrors None = [] ++ kraken :: [triton])
    by (vm_compute; reflexivity).
  split; [exact Hs |]. split; [reflexivity |].
  refine (X6_other_exception_propagates broken_net search_path search_params None 1000
            two_mirrors [] [triton] kraken Hs _ eq_refl).
  intros e He. by apply elem_of_nil in He.
Defined.

(** X7. The success is recorded before the body is parsed: when an
    endpoint answers 200 and [response.json()] raises a
    [RequestException], the endpoint is recorded as the last success and
    the loop goes on; if no other endpoint answers 200 the call returns
    [None] with that record in the history. *)
Theorem X7_unparsable_200_is_recorded (net : network) (path : string)
    (params : option json) (operation : option string) (now : Z) (self : TidalAPIClient)
    (ep : Endpoint) (post : list Endpoint) :
  _sort_endpoints_by_priority self operation = ep :: post →
  net (url ep ++ path)%string params = Response 200 (inl RequestException) →
  (∀ e, e ∈ post → not_200 (net (url e ++ path)%string params) = true) →
  let r := _make_request net path params operation now self in
  res_outcome r = Return None
  ∧ res_self r = _record_success ep (or_else operation path) now self
  ∧ requests (res_trace r) = request_to path params <$> (ep :: post).
Proof.
  intros Hsort Hep Hpost. cbv zeta. unfold _make_request. rewrite Hsort.
  simpl. rewrite Hep. simpl.
  destruct (request_loop_exhausted net path params operation post now
              (_record_success ep (or_else operation path) now self) Hpost)
    as (Ho & Hs & Ht).
  rewrite Ho, Hs, Ht. done.
Qed.

Lemma X7_unparsable_200_is_recorded_witness :
  _sort_endpoints_by_priority two_mirrors (Some "search_tracks"%string) = [kraken; triton]
  ∧ garbled_net (url kraken ++ search_path)%string search_params
    = Response 200 (inl RequestException)
  ∧ not_200 (garbled_net (url triton ++ search_path)%string search_params) = true
  ∧ (let r := _make_request garbled_net search_path search_params
                (Some "search_tracks"%string) 1000 two_mirrors in
     res_outcome r = Return None
     ∧ res_self r = _record_success kraken "search_tracks" 1000 two_mirrors
     ∧ requests (res_trace r)
       = [("https://kraken.squid.wtf/search/"%string, search_params);
          ("https://triton.squid.wtf/search/"%string, search_params)]).
Proof.
  assert (Hs : _sort_endpoints_by_priority two_mirrors (Some "search_tracks"%string)
               = [kraken; triton]) by (vm_compute; reflexivity).
  split; [exact Hs |]. do 2 (split; [reflexivity |]).
  refine (X7_unparsable_200_is_recorded garbled_net search_path search_params
            (Some "search_tracks"%string) 1000 two_mirrors kraken [triton] Hs eq_refl _).
  intros e He. apply elem_of_cons in He as [-> | He]; [reflexivity |].
  by apply elem_of_nil in He.
Defined.

(** X8. Each of the seven query methods changes no success record other
    than the one stored under its own name; in particular the three
    searches, which share the path [/search/], keep separate records. *)
Theorem X8_query_methods_keep_other_records (net : network) (query quality : string)
    (id now : Z) (self : TidalAPIClient) (k : string) :
  (k ≠ "search_tracks"%string →
   success_history (res_self (search_tracks net query now self)) !! k
   = success_history self !! k)
  ∧ (k ≠ "search_albums"%string →
     success_history (res_self (search_albums net query now self)) !! k
     = success_history self !! k)
  ∧ (k ≠ "search_artists"%string →
     success_history (res_self (search_artists net query now self)) !! k
     = success_history self !! k)
  ∧ (k ≠ "get_track"%string →
     success_history (res_self (get_track net id quality now self)) !! k
     = success_history self !! k)
  ∧ (k ≠ "get_album"%string →
     success_history (res_self (get_album net id now self)) !! k
     = success_history self !! k)
  ∧ (k ≠ "get_album_tracks"%string →
     success_history (res_self (get_album_tracks net id now self)) !! k
     = success_history self !! k)
  ∧ (k ≠ "get_artist"%string →
     success_history (res_self (get_artist net id now self)) !! k
     = success_history self !! k).
Proof.
  repeat split; intros Hk;
    unfold search_tracks, search_albums, search_artists, get_track, get_album,
      get_album_tracks, get_artist, _make_request;
    by apply request_loop_frame.
Qed.

Lemma X8_query_methods_keep_other_records_witness :
  let self := _record_success wolf "search_albums" 500 default_client in
  success_history (res_self (search_tracks flaky_net "blue" 1000 self))
    !! "search_albums"%string
  = Some {| sr_name := "wolf"; sr_url := "https://wolf.qqdl.site"; sr_timestamp := 500 |}.
Proof.
  cbv zeta.
  refine (eq_trans
            (proj1 (X8_query_methods_keep_other_records flaky_net "blue" "LOSSLESS" 0 1000
                      (_record_success wolf "search_albums" 500 default_client)
                      "search_albums") _) _).
  - discriminate.
  - apply record_success_lookup.
Defined.

(** ** The status cache, continued *)

Lemma foldr_delete_lookup `{Countable K} {V : Type} (ks : list K) (m : gmap K V) (k : K) :
  foldr delete m ks !! k = if decide (k ∈ ks) then None else m !! k.
Proof.
  induction ks as [| j ks IH]; simpl.
  - destruct (decide (k ∈ [])) as [Hin |]; [by apply elem_of_nil in Hin | done].
  - rewrite lookup_delete, IH.
    destruct (decide (j = k)) as [-> | Hjk].
    + rewrite decide_True; [done | by left].
    + destruct (decide (k ∈ ks)) as [Hin | Hin].
      * rewrite decide_True; [done | by right].
      * rewrite decide_False; [done |].
        intros [? | ?]%elem_of_cons; done.
Qed.

(** The cells [cleanup_old_status_cache] keeps are those at most 300
    seconds old. *)
Lemma cleanup_cache_lookup (now : Z) (self : TidalAPIClient) (i : Z) :
  download_status_cache (cleanup_old_status_cache now self) !! i
  = match download_status_cache self !! i with
    | Some c => if decide (now - cs_timestamp c > 300) then None else Some c
    | None => None
    end.
Proof.
  unfold cleanup_old_status_cache. simpl. rewrite foldr_delete_lookup.
  set (l := filter _ _).
  assert (Hin : ∀ c, download_status_cache self !! i = Some c →
                     i ∈ l.*1 ↔ now - cs_timestamp c > 300).
  { intros c Hc. unfold l. rewrite list_elem_of_fmap. split.
    - intros ([j c'] & -> & Hf). apply list_elem_of_filter in Hf as [Hage Hel].
      apply elem_of_map_to_list in Hel. simpl in *. by simplify_eq.
    - intros Hage. exists (i, c). split; [done |].
      apply list_elem_of_filter. split; [done |]. by apply elem_of_map_to_list. }
  destruct (download_status_cache self !! i) as [c |] eqn:Hc.
  - destruct (decide (i ∈ l.*1)) as [Hi | Hi], (decide (now - cs_timestamp c > 300))
      as [Ha | Ha]; try done.
    + by apply (Hin c eq_refl) in Hi.
    + by apply (Hin c eq_refl) in Ha.
  - by destruct (decide (i ∈ l.*1)).
Qed.

(** X9. [clear_download_status] makes the status of the item absent
    whatever the time, leaves the status of every other item as it was,
    and changes nothing when the item has no cell. *)
Theorem X9_clear_download_status (i j now : Z) (self : TidalAPIClient) :
  get_download_status i now (clear_download_status i self) = None
  ∧ (i ≠ j → get_download_status j now (clear_download_status i self)
             = get_download_status j now self)
  ∧ (download_status_cache self !! i = None → clear_download_status i self = self).
Proof.
  unfold get_download_status, clear_download_status. simpl. split; [| split].
  - by rewrite lookup_delete_eq.
  - intros Hne. by rewrite lookup_delete_ne.
  - intros Hnone. rewrite delete_id by done. by destruct self.
Qed.

Lemma X9_clear_download_status_witness :
  let self := set_download_status 1 ready 100 two_mirrors in
  get_download_status 1 100 (clear_download_status 1 self) = None
  ∧ get_download_status 1 100 (clear_download_status 2 self) = Some ready
  ∧ clear_download_status 2 self = self.
Proof.
  cbv zeta.
  destruct (X9_clear_download_status 1 1 100 (set_download_status 1 ready 100 two_mirrors))
    as (H1 & _ & _).
  destruct (X9_clear_download_status 2 1 100 (set_download_status 1 ready 100 two_mirrors))
    as (_ & H2 & H3).
  split; [exact H1 |]. split.
  - refine (eq_trans (H2 _) _); [lia | vm_compute; reflexivity].
  - apply H3. vm_compute. reflexivity.
Defined.

(** X10. [cleanup_old_status_cache] removes the cells older than 300
    seconds and keeps the others unchanged, and at the instant of the
    sweep no lookup answers differently than before it. *)
Theorem X10_cleanup_old_status_cache (i now : Z) (self : TidalAPIClient) :
  (∀ c, download_status_cache (cleanup_old_status_cache now self) !! i = Some c
        ↔ download_status_cache self !! i = Some c ∧ now - cs_timestamp c ≤ 300)
  ∧ get_download_status i now (cleanup_old_status_cache now self)
    = get_download_status i now self
  ∧ endpoints (cleanup_old_status_cache now self) = endpoints self
  ∧ success_history (cleanup_old_status_cache now self) = success_history self.
Proof.
  split; [| split; [| done]].
  - intros c. rewrite cleanup_cache_lookup.
    destruct (download_status_cache self !! i) as [c' |];
      [| split; [done | by intros [? _]]].
    destruct (decide (now - cs_timestamp c' > 300)).
    + split; [done |]. intros [[= ->] ?]. lia.
    + split; [intros [= ->]; split; [done | lia] | by intros [? _]].
  - unfold get_download_status. rewrite cleanup_cache_lookup.
    destruct (download_status_cache self !! i) as [c' |]; [| done].
    destruct (decide (now - cs_timestamp c' > 300)) as [Hold | Hnew]; [| done].
    destruct (now - cs_timestamp c' <? 300) eqn:E; [| done].
    apply Z.ltb_lt in E. lia.
Qed.

(** X11. A cell exactly 300 seconds old is no longer returned by
    [get_download_status], and is not yet removed by
    [cleanup_old_status_cache]. *)
Theorem X11_status_cache_boundary (i now : Z) (self : TidalAPIClient) (c : CachedStatus) :
  download_status_cache self !! i = Some c →
  now - cs_timestamp c = 300 →
  get_download_status i now self = None
  ∧ download_status_cache (cleanup_old_status_cache now self) !! i = Some c.
Proof.
  intros Hc Hage. split.
  - unfold get_download_status. rewrite Hc.
    destruct (now - cs_timestamp c <? 300) eqn:E; [| done].
    apply Z.ltb_lt in E. lia.
  - rewrite cleanup_cache_lookup, Hc. rewrite decide_False; [done | lia].
Qed.

Lemma X11_status_cache_boundary_witness :
  let self := set_download_status 1 ready 100 two_mirrors in
  download_status_cache self !! 1 = Some {| cs_status := ready; cs_timestamp := 100 |}
  ∧ get_download_status 1 400 self = None
  ∧ download_status_cache (cleanup_old_status_cache 400 self) !! 1
    = Some {| cs_status := ready; cs_timestamp := 100 |}.
Proof.
  cbv zeta.
  assert (H : download_status_cache (set_download_status 1 ready 100 two_mirrors) !! 1
              = Some {| cs_status := ready; cs_timestamp := 100 |})
    by (vm_compute; reflexivity).
  split; [exact H |].
  apply (X11_status_cache_boundary 1 400 _ _ H). reflexivity.
Defined.

(** X12. [set_download_status] for one item leaves the status of every
    other item as it was, and a second call for the same item replaces the
    first, status and time. *)
Theorem X12_set_download_status (i j : Z) (s1 s2 : json) (t1 t2 now : Z)
    (self : TidalAPIClient) :
  (i ≠ j → get_download_status j now (set_download_status i s1 t1 self)
           = get_download_status j now self)
  ∧ set_download_status i s2 t2 (set_download_status i s1 t1 self)
    = set_download_status i s2 t2 self.
Proof.
  unfold get_download_status, set_download_status, with_cache. simpl. split.
  - intros Hne. by rewrite lookup_insert_ne.
  - by rewrite insert_insert_eq.
Qed.

Lemma X12_set_download_status_witness :
  get_download_status 2 150 (set_download_status 1 JNull 120
                               (set_download_status 2 ready 100 two_mirrors))
  = Some ready.
Proof.
  refine (eq_trans
            (proj1 (X12_set_download_status 1 2 JNull JNull 120 120 150
                      (set_download_status 2 ready 100 two_mirrors)) _) _).
  - lia.
  - vm_compute. reflexivity.
Defined.

(** * Further properties of the download state store *)

Section StoreMore.
Import download_state.

Lemma str_inj (i j : Z) : str i = str j → i = j.
Proof. apply pretty_Z_inj. Qed.

Lemma apply_op_persisted (now : Z) (o : op) (self : DownloadStateManager) :
  persisted self → persisted (apply_op now o self).
Proof.
  intros Hp. destruct o as [i p m | i p | i f m | i e m | i]; try done.
  simpl. unfold update_progress.
  by destruct (active (state self) !! str i).
Qed.

Lemma run_persisted (calls : list (Z * op)) (self : DownloadStateManager) :
  persisted self → persisted (run calls self).
Proof.
  revert self. induction calls as [| [now o] calls IH]; intros self Hp; [done |].
  simpl. by apply IH, apply_op_persisted.
Qed.

Lemma well_shaped_new (k : string) (v : json) (now : Z) (m : json) :
  k ≠ "status"%string → k ≠ "timestamp"%string → k ≠ "metadata"%string →
  well_shaped {[ k := v; "timestamp"%string := JNum now; "metadata"%string := m ]}.
Proof.
  intros H1 H2 H3. split.
  - exists now. rewrite lookup_insert_ne by done. apply lookup_insert_eq.
  - rewrite lookup_insert_ne by done. by simplify_map_eq.
Qed.

Lemma apply_op_well_shaped (now : Z) (o : op) (self : DownloadStateManager) :
  all_entries well_shaped (state self) →
  all_entries well_shaped (state (apply_op now o self)).
Proof.
  intros Hinv k d.
  destruct o as [i p m | i p | i f m | i e m | i]; simpl.
  - (* set_downloading *)
    destruct (decide (str i = k)) as [<- | Hne].
    + rewrite lookup_insert_eq. intros [[= <-] | H]; [by apply well_shaped_new |].
      apply (Hinv (str i)). by right.
    + rewrite lookup_insert_ne by done. apply Hinv.
  - (* update_progress *)
    unfold update_progress.
    destruct (active (state self) !! str i) as [e |] eqn:Hi; [| apply Hinv].
    simpl. destruct (decide (str i = k)) as [<- | Hne].
    + rewrite lookup_insert_eq. intros [[= <-] | H]; [| apply (Hinv (str i)); by right].
      destruct (Hinv (str i) e (or_introl Hi)) as [_ Hs].
      split; [exists now; apply lookup_insert_eq |].
      by rewrite !lookup_insert_ne.
    + rewrite lookup_insert_ne by done. apply Hinv.
  - (* set_completed *)
    destruct (decide (str i = k)) as [<- | Hne].
    + rewrite lookup_delete_eq, lookup_insert_eq.
      intros [? | [[= <-] | H]]; [done | by apply well_shaped_new |].
      apply (Hinv (str i)). by right; right.
    + rewrite lookup_delete_ne, lookup_insert_ne by done. apply Hinv.
  - (* set_failed *)
    destruct (decide (str i = k)) as [<- | Hne].
    + rewrite lookup_delete_eq, lookup_insert_eq.
      intros [? | [H | [= <-]]]; [done | | by apply well_shaped_new].
      apply (Hinv (str i)). by right; left.
    + rewrite lookup_delete_ne, lookup_insert_ne by done. apply Hinv.
  - (* clear_download *)
    destruct (decide (str i = k)) as [<- | Hne].
    + rewrite !lookup_delete_eq. by intros [? | [? | ?]].
    + rewrite !lookup_delete_ne by done. apply Hinv.
Qed.

Lemma run_well_shaped (calls : list (Z * op)) (self : DownloadStateManager) :
  all_entries well_shaped (state self) →
  all_entries well_shaped (state (run calls self)).
Proof.
  revert self. induction calls as [| [now o] calls IH]; intros self Hinv; [done |].
  simpl. by apply IH, apply_op_well_shaped.
Qed.

Lemma empty_well_shaped : all_entries well_shaped empty_state.
Proof. intros k d. simpl. rewrite !lookup_empty. by intros [? | [? | ?]]. Qed.

Lemma well_shaped_timestamp (d : entry) : well_shaped d → is_Some (timestamp_of d).
Proof. intros [[t Ht] _]. unfold timestamp_of. rewrite Ht. by eexists. Qed.

(** For an untagged entry the tag shows in the returned document. *)
Lemma get_download_state_tag (i : Z) (self : DownloadStateManager) (doc : entry) :
  all_entries (fun d => d !! "status"%string = None) (state self) →
  get_download_state i self = Some doc →
  doc !! "status"%string = Some (JStr (tag_of (str i) (state self))).
Proof.
  intros Hinv. unfold get_download_state, tag_of.
  destruct (active (state self) !! str i) as [e |] eqn:Ha.
  { intros [= <-]. rewrite decide_True by (by eexists).
    apply tagged_status, (Hinv (str i)). by left. }
  rewrite decide_False by (by intros [? ?]).
  destruct (completed (state self) !! str i) as [e |] eqn:Hc.
  { intros [= <-]. rewrite decide_True by (by eexists).
    apply tagged_status, (Hinv (str i)). by right; left. }
  rewrite decide_False by (by intros [? ?]).
  destruct (failed (state self) !! str i) as [e |] eqn:Hf; [| done].
  intros [= <-]. apply tagged_status, (Hinv (str i)). by right; right.
Qed.

(** A call about one item leaves the answer for every other item alone. *)
Lemma apply_op_frame (now : Z) (o : op) (j : Z) (self : DownloadStateManager) :
  track_of o ≠ j →
  get_download_state j (apply_op now o self) = get_download_state j self.
Proof.
  intros Hne.
  assert (Hk : str (track_of o) ≠ str j) by (intros H; by apply Hne, str_inj).
  unfold get_download_state.
  destruct o as [i p m | i p | i f m | i e m | i]; simpl in *.
  - by rewrite lookup_insert_ne.
  - unfold update_progress.
    destruct (active (state self) !! str i); [| done].
    simpl. by rewrite lookup_insert_ne.
  - by rewrite lookup_delete_ne, lookup_insert_ne.
  - by rewrite lookup_delete_ne, lookup_insert_ne.
  - by rewrite !lookup_delete_ne.
Qed.

End StoreMore.

(** X13. If loading the state file gives the state in memory, this is
    still so after any sequence of store calls; it is so for every
    sequence run on the empty store. *)
Theorem X13_file_follows_state (calls : list (Z * download_state.op))
    (self : download_state.DownloadStateManager) :
  download_state.persisted self →
  download_state.persisted (download_state.run calls self).
Proof. apply run_persisted. Qed.

Lemma X13_file_follows_state_witness :
  download_state.persisted download_state.empty_store
  ∧ download_state._load_state
      (download_state.state_file (download_state.run orderly_calls download_state.empty_store))
    = download_state.state (download_state.run orderly_calls download_state.empty_store).
Proof.
  assert (H : download_state.persisted download_state.empty_store) by reflexivity.
  split; [exact H |].
  exact (X13_file_follows_state orderly_calls download_state.empty_store H).
Defined.

(** X15. [update_progress] of an active item replaces the progress and the
    timestamp of its entry and keeps every other key of it, the metadata
    included; the item is then reported as downloading with the new
    progress, and the completed and failed mappings are as before. *)
Theorem X15_update_progress_active (i p now : Z)
    (self : download_state.DownloadStateManager) (e : gmap string json) :
  download_state.active (download_state.state self) !! download_state.str i = Some e →
  let self' := download_state.update_progress i p now self in
  (∃ e', download_state.active (download_state.state self') !! download_state.str i
         = Some e'
         ∧ e' !! "progress"%string = Some (JNum p)
         ∧ e' !! "timestamp"%string = Some (JNum now)
         ∧ (∀ k, k ≠ "progress"%string → k ≠ "timestamp"%string → e' !! k = e !! k)
         ∧ download_state.get_download_state i self'
           = Some (download_state.tagged "downloading" e'))
  ∧ download_state.completed (download_state.state self')
    = download_state.completed (download_state.state self)
  ∧ download_state.failed (download_state.state self')
    = download_state.failed (download_state.state self).
Proof.
  intros He. cbv zeta. unfold download_state.update_progress. rewrite He. simpl.
  split; [| done].
  eexists. split; [apply lookup_insert_eq |].
  split; [by rewrite lookup_insert_ne, lookup_insert_eq |].
  split; [apply lookup_insert_eq |].
  split; [intros k H1 H2; by rewrite !lookup_insert_ne |].
  unfold download_state.get_download_state. simpl. by rewrite lookup_insert_eq.
Qed.

Lemma X15_update_progress_active_witness :
  let self := download_state.set_downloading 7 0 (Some [("title"%string, JStr "blue")]) 10
                download_state.empty_store in
  ∃ e, download_state.active (download_state.state self) !! download_state.str 7 = Some e
       ∧ ∃ e', download_state.active
                 (download_state.state (download_state.update_progress 7 50 11 self))
               !! download_state.str 7 = Some e'
               ∧ e' !! "progress"%string = Some (JNum 50)
               ∧ e' !! "metadata"%string = e !! "metadata"%string.
Proof.
  cbv zeta. eexists. split; [apply lookup_insert_eq |].
  destruct (X15_update_progress_active 7 50 11
              (download_state.set_downloading 7 0 (Some [("title"%string, JStr "blue")]) 10
                 download_state.empty_store) _ (lookup_insert_eq _ _ _))
    as ((e' & He' & Hp & _ & Hk & _) & _).
  exists e'. split; [exact He' |]. split; [exact Hp |].
  apply Hk; discriminate.
Defined.

(** X16. Once an item is completed, failed or cleared, [update_progress]
    for it does nothing: it changes neither the state nor the file. *)
Theorem X16_update_progress_not_active (i p now t : Z) (s : string)
    (m : option (list (string * json))) (self : download_state.DownloadStateManager) :
  download_state.update_progress i p now (download_state.set_completed i s m t self)
  = download_state.set_completed i s m t self
  ∧ download_state.update_progress i p now (download_state.set_failed i s m t self)
    = download_state.set_failed i s m t self
  ∧ download_state.update_progress i p now (download_state.clear_download i self)
    = download_state.clear_download i self.
Proof.
  unfold download_state.update_progress. simpl.
  by rewrite !lookup_delete_eq.
Qed.

(** X17. After [set_downloading] the item is reported as downloading with
    the progress given, whatever the store held; a completed or failed
    entry of the item stays where it is. *)
Theorem X17_set_downloading_wins (i p now : Z) (m : option (list (string * json)))
    (self : download_state.DownloadStateManager) :
  let self' := download_state.set_downloading i p m now self in
  (∃ doc, download_state.get_download_state i self' = Some doc
          ∧ doc !! "status"%string = Some (JStr "downloading")
          ∧ doc !! "progress"%string = Some (JNum p)
          ∧ doc !! "timestamp"%string = Some (JNum now)
          ∧ doc !! "metadata"%string = Some (download_state.or_empty m))
  ∧ download_state.completed (download_state.state self')
    = download_state.completed (download_state.state self)
  ∧ download_state.failed (download_state.state self')
    = download_state.failed (download_state.state self).
Proof.
  cbv zeta. split; [| done].
  unfold download_state.get_download_state. simpl. rewrite lookup_insert_eq.
  eexists. split; [done |].
  split; [apply tagged_status; by simplify_map_eq |].
  repeat split; apply tagged_field; by simplify_map_eq.
Qed.

(** X18. [set_failed] for an item that has a completed entry does not show:
    the failed entry is written, but the item is still reported with its
    completed entry. *)
Theorem X18_failure_masked_by_completed (i now : Z) (error : string)
    (m : option (list (string * json))) (self : download_state.DownloadStateManager)
    (e : gmap string json) :
  download_state.completed (download_state.state self) !! download_state.str i = Some e →
  let self' := download_state.set_failed i error m now self in
  is_Some (download_state.failed (download_state.state self') !! download_state.str i)
  ∧ download_state.get_download_state i self'
    = Some (download_state.tagged "completed" e).
Proof.
  intros He. cbv zeta. split.
  - simpl. rewrite lookup_insert_eq. by eexists.
  - unfold download_state.get_download_state. simpl.
    by rewrite lookup_delete_eq, He.
Qed.

Lemma X18_failure_masked_by_completed_witness :
  let self := download_state.set_completed 7 "a.flac" None 10 download_state.empty_store in
  (∃ e, download_state.completed (download_state.state self) !! download_state.str 7
        = Some e)
  ∧ ∃ doc, download_state.get_download_state 7
             (download_state.set_failed 7 "timeout" None 20 self) = Some doc
           ∧ doc !! "status"%string = Some (JStr "completed").
Proof.
  cbv zeta. split; [eexists; apply lookup_insert_eq |].
  destruct (X18_failure_masked_by_completed 7 20 "timeout" None
              (download_state.set_completed 7 "a.flac" None 10 download_state.empty_store)
              _ (lookup_insert_eq _ _ _)) as [_ H].
  eexists. split; [exact H |].
  apply tagged_status. by simplify_map_eq.
Defined.

(** X19. An entry that holds a key ["status"] of its own keeps it: when
    the entry reported for an item, the one of the first mapping that
    holds the item in the order active, completed, failed, has such a key,
    the document returned carries the entry's value, not the tag of the
    mapping. *)
Theorem X19_own_status_wins (i : Z) (self : download_state.DownloadStateManager)
    (e : gmap string json) (v : json) :
  download_state.active (download_state.state self) !! download_state.str i = Some e
  ∨ (download_state.active (download_state.state self) !! download_state.str i = None
     ∧ download_state.completed (download_state.state self) !! download_state.str i
       = Some e)
  ∨ (download_state.active (download_state.state self) !! download_state.str i = None
     ∧ download_state.completed (download_state.state self) !! download_state.str i
       = None
     ∧ download_state.failed (download_state.state self) !! download_state.str i
       = Some e) →
  e !! "status"%string = Some v →
  ∃ doc, download_state.get_download_state i self = Some doc
         ∧ doc !! "status"%string = Some v
         ∧ ∀ k, k ≠ "status"%string → doc !! k = e !! k.
Proof.
  intros He Hv. unfold download_state.get_download_state.
  assert (Hdoc : ∀ tag, download_state.tagged tag e !! "status"%string = Some v
                        ∧ ∀ k, k ≠ "status"%string →
                               download_state.tagged tag e !! k = e !! k).
  { intros tag. split; [by apply tagged_field |].
    intros k Hk. unfold download_state.tagged.
    destruct (e !! k) as [x |] eqn:Hx; [by apply lookup_union_Some_l |].
    rewrite lookup_union_r by done. by apply lookup_singleton_ne. }
  destruct He as [Ha | [[Ha Hc] | (Ha & Hc & Hf)]].
  - rewrite Ha. eexists. split; [done |]. apply Hdoc.
  - rewrite Ha, Hc. eexists. split; [done |]. apply Hdoc.
  - rewrite Ha, Hc, Hf. eexists. split; [done |]. apply Hdoc.
Qed.

Lemma X19_own_status_wins_witness :
  let self := {| download_state.state := download_state._load_state tagged_failed_file;
                 download_state.state_file := tagged_failed_file |} in
  download_state.__init__ tagged_failed_file 100 = Some self
  ∧ ∃ doc, download_state.get_download_state 7 self = Some doc
           ∧ doc !! "status"%string = Some (JStr "retrying")
           ∧ doc !! "error"%string = Some (JStr "timeout").
Proof.
  cbv zeta. split; [vm_compute; reflexivity |].
  destruct (X19_own_status_wins 7
              {| download_state.state := download_state._load_state tagged_failed_file;
                 download_state.state_file := tagged_failed_file |}
              {[ "error"%string := JStr "timeout"; "timestamp"%string := JNum 0;
                 "status"%string := JStr "retrying" ]}
              (JStr "retrying"))
    as (doc & Hd & Hs & Hk).
  - right; right. split; [| split]; vm_compute; reflexivity.
  - vm_compute. reflexivity.
  - exists doc. split; [exact Hd |]. split; [exact Hs |].
    rewrite Hk by discriminate. vm_compute. reflexivity.
Defined.

(** X20. A call about one item does not change what is reported for any
    other item. *)
Theorem X20_calls_do_not_interfere (now : Z) (o : download_state.op) (j : Z)
    (self : download_state.DownloadStateManager) :
  download_state.track_of o ≠ j →
  download_state.get_download_state j (download_state.apply_op now o self)
  = download_state.get_download_state j self.
Proof. apply apply_op_frame. Qed.

Lemma X20_calls_do_not_interfere_witness :
  let self := download_state.set_downloading 8 30 None 5 download_state.empty_store in
  download_state.track_of (download_state.ClearDownload 7) ≠ 8
  ∧ download_state.get_download_state 8
      (download_state.apply_op 10 (download_state.ClearDownload 7) self)
    = download_state.get_download_state 8 self.
Proof.
  cbv zeta.
  assert (H : download_state.track_of (download_state.ClearDownload 7) ≠ 8)
    by (simpl; lia).
  split; [exact H |].
  exact (X20_calls_do_not_interfere 10 (download_state.ClearDownload 7) 8 _ H).
Defined.

(** X21. After [set_downloading(i)] and [set_failed(i, error)], on a store
    where the item has no completed entry, the item is not active and is
    reported as failed with that error. *)
Theorem X21_downloading_then_failed (i progress t1 t2 : Z) (error : string)
    (m1 m2 : option (list (string * json))) (self : download_state.DownloadStateManager) :
  download_state.completed (download_state.state self) !! download_state.str i = None →
  let self' := download_state.set_failed i error m2 t2
                 (download_state.set_downloading i progress m1 t1 self) in
  download_state.active (download_state.state self') !! download_state.str i = None
  ∧ ∃ doc, download_state.get_download_state i self' = Some doc
           ∧ doc !! "status"%string = Some (JStr "failed")
           ∧ doc !! "error"%string = Some (JStr error)
           ∧ doc !! "timestamp"%string = Some (JNum t2).
Proof.
  intros Hc. cbv zeta. split; [apply lookup_delete_eq |].
  unfold download_state.get_download_state. simpl.
  rewrite lookup_delete_eq, Hc, lookup_insert_eq.
  eexists. split; [done |].
  split; [apply tagged_status; by simplify_map_eq |].
  split; apply tagged_field; by simplify_map_eq.
Qed.

Lemma X21_downloading_then_failed_witness :
  download_state.completed (download_state.state download_state.empty_store)
    !! download_state.str 7 = None
  ∧ ∃ doc, download_state.get_download_state 7
             (download_state.set_failed 7 "timeout" None 20
                (download_state.set_downloading 7 0 None 10 download_state.empty_store))
           = Some doc
           ∧ doc !! "status"%string = Some (JStr "failed").
Proof.
  assert (H : download_state.completed (download_state.state download_state.empty_store)
                !! download_state.str 7 = None) by apply lookup_empty.
  split; [exact H |].
  destruct (X21_downloading_then_failed 7 0 10 20 "timeout" None None
              download_state.empty_store H) as [_ (doc & Hd & Hs & _)].
  by exists doc.
Defined.


(** ** Construction of the store *)

(** X23. When construction succeeds, the active mapping is the one
    loaded, however old its entries, and the completed and failed mappings
    hold exactly the loaded entries whose age is at most 3600 seconds, an
    entry without timestamp counting as written at time 0. *)
Theorem X23_construction_sweeps (f : download_state.file) (t : Z)
    (self : download_state.DownloadStateManager) :
  download_state.__init__ f t = Some self →
  download_state.active (download_state.state self)
  = download_state.active (download_state._load_state f)
  ∧ (∀ k d, download_state.completed (download_state.state self) !! k = Some d
            ↔ download_state.completed (download_state._load_state f) !! k = Some d
              ∧ ∃ ts, download_state.timestamp_of d = Some ts ∧ t - ts ≤ 3600)
  ∧ (∀ k d, download_state.failed (download_state.state self) !! k = Some d
            ↔ download_state.failed (download_state._load_state f) !! k = Some d
              ∧ ∃ ts, download_state.timestamp_of d = Some ts ∧ t - ts ≤ 3600).
Proof. apply init_sweeps. Qed.

Lemma X23_construction_sweeps_witness :
  ∃ self, download_state.__init__ stale_completed 10000 = Some self
          ∧ ∀ d, download_state.completed (download_state.state self) !! "7"%string
                 ≠ Some d.
Proof.
  eexists. split; [vm_compute; reflexivity |].
  intros d Hd.
  destruct (X23_construction_sweeps stale_completed 10000 _ eq_refl) as (_ & Hc & _).
  apply Hc in Hd as [Hd (ts & Hts & Hage)].
  vm_compute in Hd. injection Hd as <-.
  vm_compute in Hts. injection Hts as <-. lia.
Defined.





(** X26. With no state file, or with one that cannot be read or parsed,
    construction succeeds at any time with the three mappings empty, and
    writes nothing. *)
Theorem X26_construction_without_file (t : Z) :
  download_state.__init__ download_state.NoFile t
  = Some {| download_state.state := download_state.empty_state;
            download_state.state_file := download_state.NoFile |}
  ∧ download_state.__init__ download_state.Corrupt t
    = Some {| download_state.state := download_state.empty_state;
              download_state.state_file := download_state.Corrupt |}.
Proof.
  assert (He : download_state.expired_keys t ∅ = Some []).
  { unfold download_state.expired_keys. by rewrite map_to_list_empty. }
  unfold download_state.__init__, download_state._cleanup_old_entries. simpl.
  rewrite He. done.
Qed.

(** X27. Whenever the state file holds the state reached by a sequence of
    calls on the empty store, that is, whenever the last write went
    through, construction from it succeeds at any time, with the active
    mapping as it was and the completed and failed entries that are at
    most 3600 seconds old. *)
Theorem X27_reconstruction_after_run (calls : list (Z * download_state.op)) (t : Z)
    (f : download_state.file) :
  download_state._load_state f
  = download_state.state (download_state.run calls download_state.empty_store) →
  let s := download_state.run calls download_state.empty_store in
  ∃ self, download_state.__init__ f t = Some self
          ∧ download_state.active (download_state.state self)
            = download_state.active (download_state.state s)
          ∧ (∀ k d, download_state.completed (download_state.state self) !! k = Some d
                    ↔ download_state.completed (download_state.state s) !! k = Some d
                      ∧ ∃ ts, d !! "timestamp"%string = Some (JNum ts) ∧ t - ts ≤ 3600)
          ∧ (∀ k d, download_state.failed (download_state.state self) !! k = Some d
                    ↔ download_state.failed (download_state.state s) !! k = Some d
                      ∧ ∃ ts, d !! "timestamp"%string = Some (JNum ts) ∧ t - ts ≤ 3600).
Proof.
  intros Hp s. fold s in Hp.
  assert (Hw : download_state.all_entries download_state.well_shaped
                 (download_state.state s))
    by apply run_well_shaped, empty_well_shaped.
  assert (Hts : ∀ d ts, download_state.well_shaped d →
                  download_state.timestamp_of d = Some ts
                  ↔ d !! "timestamp"%string = Some (JNum ts)).
  { intros d ts [[t' Ht'] _]. unfold download_state.timestamp_of. rewrite Ht'.
    split; by intros [= ->]. }
  destruct (init_total f t) as [self Hself].
  { rewrite Hp. intros k d Hd. apply well_shaped_timestamp, (Hw k). by right; left. }
  { rewrite Hp. intros k d Hd. apply well_shaped_timestamp, (Hw k). by right; right. }
  exists self. split; [done |].
  destruct (init_sweeps _ _ _ Hself) as (Ha & Hc & Hf). rewrite Hp in Ha, Hc, Hf.
  split; [done |]. split; intros k d.
  - rewrite Hc. split; intros [Hd (ts & H1 & H2)]; (split; [done |]); exists ts;
      (split; [| done]); apply (Hts d ts); try done; apply (Hw k); by right; left.
  - rewrite Hf. split; intros [Hd (ts & H1 & H2)]; (split; [done |]); exists ts;
      (split; [| done]); apply (Hts d ts); try done; apply (Hw k); by right; right.
Qed.

Lemma X27_reconstruction_after_run_witness :
  let s := download_state.run orderly_calls download_state.empty_store in
  download_state._load_state (download_state.Saved (download_state.state s))
  = download_state.state s
  ∧ ∃ self, download_state.__init__ (download_state.Saved (download_state.state s)) 5000
            = Some self
            ∧ download_state.active (download_state.state self)
              = download_state.active (download_state.state s)
            ∧ ∀ d, download_state.completed (download_state.state self) !! "8"%string
                   ≠ Some d.
Proof.
  cbv zeta. split; [reflexivity |].
  destruct (X27_reconstruction_after_run orderly_calls 5000
              (download_state.Saved
                 (download_state.state
                    (download_state.run orderly_calls download_state.empty_store)))
              eq_refl) as (self & Hself & Ha & Hc & _).
  exists self. split; [exact Hself |]. split; [exact Ha |].
  intros d Hd. apply Hc in Hd as [Hd (ts & Hts & Hage)].
  vm_compute in Hd. injection Hd as <-.
  vm_compute in Hts. injection Hts as <-. lia.
Defined.

(** X28. On a store reached from the empty store by any sequence of calls,
    the document reported for an item carries under ["status"] the tag of
    the first mapping that holds the item, in the order active, completed,
    failed. *)
Theorem X28_reported_status_is_the_tag (calls : list (Z * download_state.op)) (i : Z)
    (doc : gmap string json) :
  let s := download_state.run calls download_state.empty_store in
  download_state.get_download_state i s = Some doc →
  doc !! "status"%string
  = Some (JStr (download_state.tag_of (download_state.str i) (download_state.state s))).
Proof.
  intros s. apply get_download_state_tag.
  intros k d Hd.
  by apply (run_well_shaped calls download_state.empty_store empty_well_shaped k d Hd).
Qed.

Lemma X28_reported_status_is_the_tag_witness :
  ∃ doc, download_state.get_download_state 8
           (download_state.run orderly_calls download_state.empty_store) = Some doc
         ∧ doc !! "status"%string = Some (JStr "completed").
Proof.
  eexists. split; [vm_compute; reflexivity |].
  refine (eq_trans (X28_reported_status_is_the_tag orderly_calls 8 _ _) _);
    vm_compute; reflexivity.
Defined.
